(** * Interval recording with speech-to-text

    A shallow embedding of the renderer script (resampleAudio,
    processAudioChunk, updateTranscriptionUI, startIntervalRecording,
    stopIntervalRecording) and of src/stt-transcription.ts
    (transcribeAudio), with the properties of the specification that
    concern them.

    Conventions.
    - A JavaScript Number is an IEEE 754 binary64 value: [spec_float] with
      the operations of [SpecFloat] at precision 53.  Math.floor and
      Math.round return integral Numbers; these are carried as [integral]
      (an integer of [Z], or one of the three non-finite Numbers), on which
      comparison and the successor are exact.
    - Effects are explicit: a computation is a function from a state to an
      outcome (a value, or a thrown exception) and a new state.
    - Typed arrays live in a store and are passed by reference; every
      element read is recorded.
    - What the script calls but does not define (the encoder of ./wav, the
      two calls of window.nodeAPI, the clock, JSON.stringify, the transport
      of the inference client) is a parameter that says how each call
      ends.  The capture source of ./audio_capture and the interval timer
      are the stimuli the page reacts to.
    - The script records what it does in a trace: its calls of the
      collaborators and what it writes to the console.  A console message
      built from a template keeps the text of the template.
    - An awaited call is run to its end where it is made: the handoffs of
      two windows are not interleaved. *)

From Stdlib Require Import ZArith QArith Qpower Qround Lia.
From Stdlib Require Import Floats.SpecFloat.
From Stdlib Require Import Ascii.
From stdpp Require Import base option list strings pretty.

#[local] Set Warnings "-register-all".
Local Open Scope Z_scope.

(* ================================================================== *)
(** * Numbers *)
(* ================================================================== *)

Module Number.

Definition prec : Z := 53.
Definition emax : Z := 1024.

Abbreviation number := spec_float (only parsing).

Definition nan : number := S754_nan.

(** The Number nearest to an integer (exact below 2^53). *)
Definition ofZ (z : Z) : number := binary_normalize prec emax z 0 false.

Definition div : number -> number -> number := SFdiv prec emax.
Definition mul : number -> number -> number := SFmul prec emax.
Definition add : number -> number -> number := SFadd prec emax.
Definition sub : number -> number -> number := SFsub prec emax.

(** [===] on Numbers. *)
Definition strict_eq : number -> number -> bool := SFeqb.

(** The real value of the finite Number [(-1)^s * m * 2^e]. *)
Definition exact (s : bool) (m : positive) (e : Z) : Q :=
  (inject_Z (cond_Zopp s (Zpos m)) * 2 ^ e)%Q.

(** An integral Number, or a non-finite one. *)
Inductive integral := Int (z : Z) | PosInf | NegInf | NotANumber.

(** Math.floor *)
Definition Math_floor (x : number) : integral :=
  match x with
  | S754_nan => NotANumber
  | S754_infinity s => if s then NegInf else PosInf
  | S754_zero _ => Int 0
  | S754_finite s m e => Int (Qfloor (exact s m e))
  end.

(** Math.round: the nearest integer, a tie going towards +infinity. *)
Definition Math_round (x : number) : integral :=
  match x with
  | S754_nan => NotANumber
  | S754_infinity s => if s then NegInf else PosInf
  | S754_zero _ => Int 0
  | S754_finite s m e => Int (Qfloor (exact s m e + (1 # 2))%Q)
  end.

Definition toNumber (i : integral) : number :=
  match i with
  | Int z => ofZ z
  | PosInf => S754_infinity false
  | NegInf => S754_infinity true
  | NotANumber => S754_nan
  end.

(** [i >= z] for an integral Number [i] and an integer [z]. *)
Definition geb (i : integral) (z : Z) : bool :=
  match i with
  | Int k => z <=? k
  | PosInf => true
  | NegInf | NotANumber => false
  end.

(** [i + 1] *)
Definition succ (i : integral) : integral :=
  match i with
  | Int k => Int (k + 1)
  | _ => i
  end.

(** Math.fround: rounding to binary32, the result again a binary64. *)
Definition fround (x : number) : number :=
  match x with
  | S754_finite s m e =>
      match binary_normalize 24 128 (cond_Zopp s (Zpos m)) e s with
      | S754_finite s' m' e' =>
          binary_normalize prec emax (cond_Zopp s' (Zpos m')) e' s'
      | y => y
      end
  | _ => x
  end.

(** Strictly positive and finite. *)
Definition positive_finite (x : number) : Prop :=
  match x with
  | S754_finite false _ _ => True
  | _ => False
  end.

(** Zero, strictly positive and finite, or +infinity. *)
Definition nonneg (x : number) : Prop :=
  match x with
  | S754_zero false | S754_finite false _ _ | S754_infinity false => True
  | _ => False
  end.

(** A rounded result has the sign it was given, and is a Number. *)
Definition signed (s : bool) (x : number) : Prop :=
  match x with
  | S754_zero s' | S754_infinity s' | S754_finite s' _ _ => s' = s
  | S754_nan => False
  end.

End Number.

(* ================================================================== *)
(** * Computations with state and exceptions *)
(* ================================================================== *)

Module Effects.

(** A thrown value: a kind of error with its message. *)
Inductive exn :=
| RangeError (msg : string)
| SyntaxError (msg : string)
| TypeError (msg : string)
| Error (msg : string).

Inductive outcome (A : Type) :=
| Return (a : A)
| Throw (e : exn).
Arguments Return {A} a.
Arguments Throw {A} e.

Definition M (S A : Type) : Type := S -> outcome A * S.

Definition ret {S A} (a : A) : M S A := fun s => (Return a, s).

Definition bind {S A B} (m : M S A) (k : A -> M S B) : M S B :=
  fun s =>
    match m s with
    | (Return a, s') => k a s'
    | (Throw e, s') => (Throw e, s')
    end.

Definition throw {S A} (e : exn) : M S A := fun s => (Throw e, s).

(** try { body } catch (error) { handler error } *)
Definition try_catch {S A} (body : M S A) (handler : exn -> M S A) : M S A :=
  fun s =>
    match body s with
    | (Return a, s') => (Return a, s')
    | (Throw e, s') => handler e s'
    end.

Definition gets {S A} (f : S -> A) : M S A := fun s => (Return (f s), s).
Definition modify {S} (f : S -> S) : M S unit := fun s => (Return tt, f s).

(** A computation on a component of the state. *)
Definition zoom {S T A} (proj : S -> T) (inj : T -> S -> S) (m : M T A) : M S A :=
  fun s => let (o, t) := m (proj s) in (o, inj t s).

(** for (let i = start; ...; i++) body, run [n] times *)
Fixpoint for_loop {S} (n : nat) (i : Z) (body : Z -> M S unit) : M S unit :=
  match n with
  | O => ret tt
  | S n' => bind (body i) (fun _ => for_loop n' (i + 1) body)
  end.

Definition state_after {S A} (r : outcome A * S) : S := snd r.

#[global] Instance M_ret {S} : MRet (M S) := fun A => @ret S A.
#[global] Instance M_bind {S} : MBind (M S) := fun A B k m => bind m k.

End Effects.

(* ================================================================== *)
(** * The sample resampler *)
(* ================================================================== *)

Module Resampler.
Import Number Effects.

(** A Float32Array: its elements, each a binary32 value. *)
Abbreviation Float32Array := (list number) (only parsing).

(** Every element is a fixed point of the rounding to binary32. *)
Definition well_formed (a : Float32Array) : Prop :=
  Forall (fun v => fround v = v) a.

Abbreviation ref := nat (only parsing).

(** The typed-array store, and the element reads made so far
    (array, index), the latest last. *)
Record heap := Heap {
  arrays : list Float32Array;
  reads : list (ref * integral)
}.

Definition array_at (h : heap) (a : ref) : Float32Array :=
  default [] (arrays h !! a).

(** a.length *)
Definition length_of (a : ref) : M heap Z :=
  gets (fun h => Z.of_nat (length (array_at h a))).

(** a[k] used as a Number: an index out of range (or not an index)
    gives undefined, hence NaN. *)
Definition element (x : Float32Array) (k : integral) : number :=
  match k with
  | Int z => if 0 <=? z then default nan (x !! Z.to_nat z) else nan
  | _ => nan
  end.

Definition get_element (a : ref) (k : integral) : M heap number :=
  fun h => (Return (element (array_at h a) k),
            Heap (arrays h) (reads h ++ [(a, k)])).

(** a[i] = v: the value is rounded to binary32; a store out of range
    is ignored. *)
Definition set_element (a : ref) (i : Z) (v : number) : M heap unit :=
  modify (fun h =>
    Heap (if 0 <=? i
          then <[a := <[Z.to_nat i := fround v]> (array_at h a)]> (arrays h)
          else arrays h)
         (reads h)).

(** The length new Float32Array(n) allocates: NaN counts as 0; a
    negative or infinite [n], or one above 2^53 - 1, is refused.  (An
    engine refuses lengths it has no memory for as well; there is no
    such limit here.) *)
Definition ToIndex (n : integral) : option nat :=
  match n with
  | Int z => if (0 <=? z) && (z <=? 2 ^ 53 - 1) then Some (Z.to_nat z) else None
  | NotANumber => Some O
  | PosInf | NegInf => None
  end.

Definition new_Float32Array (n : integral) : M heap ref :=
  match ToIndex n with
  | Some k =>
      fun h => (Return (length (arrays h)),
                Heap (arrays h ++ [replicate k (S754_zero false)]) (reads h))
  | None => throw (RangeError "Invalid typed array length")
  end.

(** How often [for (let i = 0; i < newLength; i++)] runs, once the
    array of that length exists. *)
Definition iterations (newLength : integral) : nat :=
  match newLength with
  | Int z => Z.to_nat z
  | _ => O
  end.

(** The body of the loop of resampleAudio, for the output index [i]. *)
Definition body (audioData result : ref) (ratio : number) (i : Z) : M heap unit :=
  let position := mul (ofZ i) ratio in
  let index := Math_floor position in
  let fraction := sub position (toNumber index) in
  len ← length_of audioData;
  if geb index (len - 1) then
    v ← get_element audioData (Int (len - 1));
    set_element result i v
  else
    x0 ← get_element audioData index;
    x1 ← get_element audioData (succ index);
    set_element result i (add (mul x0 (sub (ofZ 1) fraction)) (mul x1 fraction)).

Definition resampleAudio (audioData : ref)
    (originalSampleRate targetSampleRate : number) : M heap ref :=
  if strict_eq originalSampleRate targetSampleRate then
    ret audioData
  else
    let ratio := div originalSampleRate targetSampleRate in
    len ← length_of audioData;
    let newLength := Math_round (div (ofZ len) ratio) in
    result ← new_Float32Array newLength;
    for_loop (iterations newLength) 0 (body audioData result ratio);;
    ret result.

Section Iteration.

Variable ratio : number.

(** Whether iteration [i] takes the branch that repeats the last sample
    of [x]. *)
Definition clamps (x : Float32Array) (i : Z) : bool :=
  geb (Math_floor (mul (ofZ i) ratio)) (Z.of_nat (length x) - 1).

(** The indices iteration [i] reads. *)
Definition indices_read (x : Float32Array) (i : Z) : list integral :=
  let index := Math_floor (mul (ofZ i) ratio) in
  if clamps x i then [Int (Z.of_nat (length x) - 1)] else [index; succ index].

(** The value iteration [i] stores, before its rounding to binary32. *)
Definition value_stored (x : Float32Array) (i : Z) : number :=
  let position := mul (ofZ i) ratio in
  let index := Math_floor position in
  let fraction := sub position (toNumber index) in
  if clamps x i then element x (Int (Z.of_nat (length x) - 1))
  else add (mul (element x index) (sub (ofZ 1) fraction))
           (mul (element x (succ index)) fraction).

End Iteration.

(** A read of [audioData] at an index of [x]. *)
Definition in_bounds (audioData : ref) (x : Float32Array) (r : ref * integral) : Prop :=
  r.1 = audioData /\ exists z, r.2 = Int z /\ 0 <= z < Z.of_nat (length x).

End Resampler.


(* ================================================================== *)
(** * JSON values *)
(* ================================================================== *)

Module Json.
Import Number.

(** A value as JSON.parse produces it.  An object lists its properties
    in property order. *)
Inductive json :=
| JNull
| JBool (b : bool)
| JNum (n : number)
| JStr (s : string)
| JArr (items : list json)
| JObj (fields : list (string * json)).

(** o[k], [None] for undefined *)
Fixpoint lookup_field (k : string) (o : list (string * json)) : option json :=
  match o with
  | [] => None
  | (k', v) :: o' => if String.eqb k' k then Some v else lookup_field k o'
  end.

(** o[k] = v: an existing property keeps its place, a new one comes last. *)
Fixpoint set_field (k : string) (v : json) (o : list (string * json))
    : list (string * json) :=
  match o with
  | [] => [(k, v)]
  | (k', v') :: o' =>
      if String.eqb k' k then (k', v) :: o' else (k', v') :: set_field k v o'
  end.

(** The own enumerable properties that an object spread copies. *)
Definition own_properties (v : json) : list (string * json) :=
  match v with
  | JObj fields => fields
  | JArr items => imap (fun i x => (pretty i, x)) items
  | JStr s => imap (fun i c => (pretty i, JStr (String c EmptyString)))
                   (String.list_ascii_of_string s)
  | JNull | JBool _ | JNum _ => []
  end.

(** { ...target, ...source } *)
Definition spread (source : json) (target : list (string * json))
    : list (string * json) :=
  foldl (fun acc kv => set_field kv.1 kv.2 acc) target (own_properties source).

(** ToBoolean *)
Definition truthy (v : json) : bool :=
  match v with
  | JNull => false
  | JBool b => b
  | JNum (S754_zero _) | JNum S754_nan => false
  | JNum _ => true
  | JStr s => negb (String.eqb s EmptyString)
  | JArr _ | JObj _ => true
  end.

Definition is_null (v : json) : bool :=
  match v with JNull => true | _ => false end.

End Json.

(* ================================================================== *)
(** * src/stt-transcription.ts *)
(* ================================================================== *)

Module Stt.
Import Number Effects Json.

Abbreviation bytes := (list Byte.byte) (only parsing).

Definition DEFAULT_ENDPOINT_NAME : string := "dlsg-ds-asr-real-time-djl-2-endpoint".
Definition CONTENT_TYPE : string := "audio/wav".
Definition ACCEPT_TYPE : string := "application/json".

Record TranscriptionOptions := {
  region : option string;
  profile : option string;
  endpointName : option string
}.

Definition no_options : TranscriptionOptions :=
  {| region := None; profile := None; endpointName := None |}.

Record client := {
  client_region : string;
  client_profile : string;
  rejectUnauthorized : bool
}.

Record InvokeEndpointCommand := {
  EndpointName : string;
  Body : bytes;
  ContentType : string;
  Accept : string
}.

(** [o || d] for an optional string: undefined and the empty string
    give [d]. *)
Definition or_default (o : option string) (d : string) : string :=
  match o with
  | Some s => if String.eqb s EmptyString then d else s
  | None => d
  end.

Definition createClient (options : TranscriptionOptions) : client :=
  {| client_region := or_default (region options) "us-east-1";
     client_profile := or_default (profile options) "default";
     rejectUnauthorized := false |}.

Inductive console_line :=
| Log (msg : string)
| LogError (msg : string) (e : exn).

(** What a call does that takes time or reads it, in the order in
    which it does it. *)
Inductive step :=
| Clock_read (k : nat)
| Request_sent (c : client) (command : InvokeEndpointCommand)
| Decoded (body : bytes)
| Parsed (jsonString : string).

(** The process that runs the call: how many times Date.now() has been
    read, what was written to the console, and the steps taken so far,
    the latest last. *)
Record process := Process {
  clock_reads : nat;
  console : list console_line;
  steps : list step
}.

Section TranscribeAudio.

(** The k-th reading of Date.now(). *)
Variable Date_now_at : nat -> number.
(** client.send(command): rejected, or resolved with a response whose
    Body may be absent. *)
Variable send : client -> InvokeEndpointCommand -> outcome (option bytes).
(** new TextDecoder('utf-8').decode *)
Variable decode : bytes -> outcome string.
Variable JSON_parse : string -> outcome json.

Definition Date_now : M process number :=
  fun p => (Return (Date_now_at (clock_reads p)),
            Process (S (clock_reads p)) (console p)
                    (steps p ++ [Clock_read (clock_reads p)])).

Definition console_log (msg : string) : M process unit :=
  modify (fun p => Process (clock_reads p) (console p ++ [Log msg]) (steps p)).

Definition console_error (msg : string) (e : exn) : M process unit :=
  modify (fun p => Process (clock_reads p) (console p ++ [LogError msg e]) (steps p)).

(** The duration that a call started in process state [p] measures: the
    reading of the clock after the response minus the one before the
    request. *)
Definition measured (p : process) : number :=
  sub (Date_now_at (S (clock_reads p))) (Date_now_at (clock_reads p)).

(** The outcome of an awaited promise, or of a call that may throw. *)
Definition await {S A} (o : outcome A) : M S A := fun s => (o, s).

(** A call of the process that is recorded as a step, with its outcome. *)
Definition recorded {A} (st : step) (o : outcome A) : M process A :=
  fun p => (o, Process (clock_reads p) (console p) (steps p ++ [st])).

Definition transcribeAudio (audioData : bytes) (options : TranscriptionOptions)
    : M process json :=
  let client := createClient options in
  let endpointName := or_default (endpointName options) DEFAULT_ENDPOINT_NAME in
  let params := {| EndpointName := endpointName;
                   Body := audioData;
                   ContentType := CONTENT_TYPE;
                   Accept := ACCEPT_TYPE |} in
  let command := params in
  startTime ← Date_now;
  console_log "Transcription request started at: ${new Date(startTime).toISOString()}";;
  try_catch
    (data ← recorded (Request_sent client command) (send client command);
     endTime ← Date_now;
     let duration := sub endTime startTime in
     console_log "Transcription request completed in ${duration} ms";;
     match data with
     | None => throw (Error "No response body received from SageMaker endpoint")
     | Some body =>
         jsonString ← recorded (Decoded body) (decode body);
         jsonObject ← recorded (Parsed jsonString) (JSON_parse jsonString);
         ret (JObj (set_field "duration" (JNum duration) (spread jsonObject [])))
     end)
    (fun error =>
       endTime ← Date_now;
       console_error "Transcription failed after ${endTime - startTime} ms:" error;;
       throw error).

(** nodeAPI.transcribeAudio, as the preload script exposes it. *)
Definition nodeAPI_transcribeAudio (audioData : bytes) : M process json :=
  let buffer := audioData in
  try_catch
    (result ← transcribeAudio buffer no_options;
     ret result)
    (fun error =>
       console_error "Transcription error:" error;;
       throw error).

(** The causes of failure that the interface names: the transport call
    errors, the response has no body, or the body does not decode or
    does not parse. *)
Definition failure_cause (audioData : bytes) (options : TranscriptionOptions) : Prop :=
  let command := {| EndpointName := or_default (endpointName options) DEFAULT_ENDPOINT_NAME;
                    Body := audioData;
                    ContentType := CONTENT_TYPE;
                    Accept := ACCEPT_TYPE |} in
  match send (createClient options) command with
  | Throw _ => True
  | Return None => True
  | Return (Some body) =>
      match decode body with
      | Throw _ => True
      | Return jsonString =>
          match JSON_parse jsonString with
          | Throw _ => True
          | Return _ => False
          end
      end
  end.

End TranscribeAudio.

End Stt.

(* ================================================================== *)
(** * The renderer script *)
(* ================================================================== *)

Module Renderer.
Import Number Effects Resampler Json.

Abbreviation bytes := (list Byte.byte) (only parsing).

(** A chunk of the capture source: number[] *)
Abbreviation chunk := (list number) (only parsing).

Definition INTERVAL_SECONDS : Z := 30.
Definition TARGET_SAMPLE_RATE : number := ofZ 8000.
Definition DEVICE_SAMPLE_RATE : number := ofZ 44100.

Record wav_options := {
  isFloat : bool;
  numChannels : Z;
  sampleRate : number
}.

(** What the script calls but does not define: the encoder of ./wav, the
    two calls of window.nodeAPI (each given by how its promise settles),
    the clock, and the built-in conversions to text. *)
Record collaborators := {
  renderWavFile : Float32Array -> wav_options -> outcome bytes;
  writeFile : string -> bytes -> outcome unit;
  transcribeAudio : bytes -> outcome json;
  toISOString : string;
  toLocaleTimeString : string;
  JSON_stringify : json -> string;
  JSON_stringify_indented : json -> string;
  Number_toString : number -> string
}.

(** What the script does that can be observed from outside. *)
Inductive event :=
| Enter_processAudioChunk (chunks : list chunk)
| Call_resampleAudio
| Call_renderWavFile
| Call_writeFile (filename : string)
| Call_transcribeAudio
| Call_updateTranscriptionUI (result : json)
| Console_log (msg : string)
| Console_error (msg : string) (e : exn).

(** A div.transcription-result: its timestamp and its text. *)
Record element := {
  timestamp : string;
  text : string
}.

(** A subscription to audio_stream().pipe(buffer(interval), takeUntil(stop)):
    the chunks buffered since the last tick, and whether it has ended. *)
Record pipeline := {
  buffered : list chunk;
  closed : bool
}.

Record world := {
  (* the variables of the script *)
  isRecording : bool;
  recordingSubscription : option nat;
  transcriptionResults : list json;
  (* window.stopRecordingSubject *)
  stopRecordingSubject : option nat;
  (* the children of #transcriptionResults, if the element exists *)
  resultsContainer : option (list element);
  (* typed arrays *)
  store : heap;
  (* every subscription made so far; a subscription and its stop subject
     are named by its position *)
  pipelines : list pipeline;
  trace : list event
}.

Definition with_isRecording (b : bool) (w : world) : world :=
  {| isRecording := b;
     recordingSubscription := recordingSubscription w;
     transcriptionResults := transcriptionResults w;
     stopRecordingSubject := stopRecordingSubject w;
     resultsContainer := resultsContainer w;
     store := store w;
     pipelines := pipelines w;
     trace := trace w |}.

Definition with_recordingSubscription (s : option nat) (w : world) : world :=
  {| isRecording := isRecording w;
     recordingSubscription := s;
     transcriptionResults := transcriptionResults w;
     stopRecordingSubject := stopRecordingSubject w;
     resultsContainer := resultsContainer w;
     store := store w;
     pipelines := pipelines w;
     trace := trace w |}.

Definition with_transcriptionResults (r : list json) (w : world) : world :=
  {| isRecording := isRecording w;
     recordingSubscription := recordingSubscription w;
     transcriptionResults := r;
     stopRecordingSubject := stopRecordingSubject w;
     resultsContainer := resultsContainer w;
     store := store w;
     pipelines := pipelines w;
     trace := trace w |}.

Definition with_stopRecordingSubject (s : option nat) (w : world) : world :=
  {| isRecording := isRecording w;
     recordingSubscription := recordingSubscription w;
     transcriptionResults := transcriptionResults w;
     stopRecordingSubject := s;
     resultsContainer := resultsContainer w;
     store := store w;
     pipelines := pipelines w;
     trace := trace w |}.

Definition with_resultsContainer (c : option (list element)) (w : world) : world :=
  {| isRecording := isRecording w;
     recordingSubscription := recordingSubscription w;
     transcriptionResults := transcriptionResults w;
     stopRecordingSubject := stopRecordingSubject w;
     resultsContainer := c;
     store := store w;
     pipelines := pipelines w;
     trace := trace w |}.

Definition with_store (h : heap) (w : world) : world :=
  {| isRecording := isRecording w;
     recordingSubscription := recordingSubscription w;
     transcriptionResults := transcriptionResults w;
     stopRecordingSubject := stopRecordingSubject w;
     resultsContainer := resultsContainer w;
     store := h;
     pipelines := pipelines w;
     trace := trace w |}.

Definition with_pipelines (p : list pipeline) (w : world) : world :=
  {| isRecording := isRecording w;
     recordingSubscription := recordingSubscription w;
     transcriptionResults := transcriptionResults w;
     stopRecordingSubject := stopRecordingSubject w;
     resultsContainer := resultsContainer w;
     store := store w;
     pipelines := p;
     trace := trace w |}.

Definition with_trace (t : list event) (w : world) : world :=
  {| isRecording := isRecording w;
     recordingSubscription := recordingSubscription w;
     transcriptionResults := transcriptionResults w;
     stopRecordingSubject := stopRecordingSubject w;
     resultsContainer := resultsContainer w;
     store := store w;
     pipelines := pipelines w;
     trace := t |}.

Definition emit (ev : event) : M world unit :=
  modify (fun w => with_trace (trace w ++ [ev]) w).

Definition console_log (msg : string) : M world unit := emit (Console_log msg).
Definition console_error (msg : string) (e : exn) : M world unit :=
  emit (Console_error msg e).

(** A computation on the typed-array store. *)
Definition on_store {A} (m : M heap A) : M world A := zoom store with_store m.

(** new Float32Array(values): a fresh array holding the values, each
    rounded to binary32. *)
Definition new_Float32Array_from (values : list number) : M heap ref :=
  fun h => (Return (length (arrays h)),
            Heap (arrays h ++ [map fround values]) (reads h)).

(** s.replace(/[:.]/g, '-') *)
Fixpoint replace_colons_and_periods (s : string) : string :=
  match s with
  | EmptyString => EmptyString
  | String c s' =>
      String (if Ascii.eqb c ":"%char || Ascii.eqb c "."%char then "-"%char else c)
             (replace_colons_and_periods s')
  end.

(** String(v) *)
Fixpoint ToString (number_toString : number -> string) (v : json) : string :=
  match v with
  | JNull => "null"
  | JBool b => if b then "true" else "false"
  | JNum n => number_toString n
  | JStr s => s
  | JArr items =>
      String.concat ","
        (map (fun x => if is_null x then EmptyString
                       else ToString number_toString x) items)
  | JObj _ => "[object Object]"
  end.

(** items.join(separator): null gives the empty string, anything else
    its String. *)
Definition Array_join (number_toString : number -> string)
    (separator : string) (items : list json) : string :=
  String.concat separator
    (map (fun x => if is_null x then EmptyString
                   else ToString number_toString x) items).

(** result.text: undefined on a value that has no such property, and an
    exception on null. *)
Definition text_property (result : json) : outcome (option json) :=
  match result with
  | JNull => Throw (TypeError "Cannot read properties of null (reading 'text')")
  | JObj fields => Return (lookup_field "text" fields)
  | _ => Return None
  end.

Definition message (e : exn) : string :=
  match e with
  | RangeError m | SyntaxError m | TypeError m | Error m => m
  end.

Section Script.

Variable env : collaborators.

(** What the callback of result.text.map returns for an item. *)
Definition item_text (item : json) : json :=
  match item with
  | JObj fields =>
      match lookup_field "text" fields with
      | Some t => t
      | None => JStr (ToString (Number_toString env) item)
      end
  | _ => JStr (ToString (Number_toString env) item)
  end.

(** The text that updateTranscriptionUI shows for a result. *)
Definition transcribedText (result : json) : string :=
  match text_property result with
  | Return (Some t) =>
      if truthy t then
        match t with
        | JArr items =>
            if (0 <? length items)%nat
            then Array_join (Number_toString env) " " (map item_text items)
            else JSON_stringify env t
        | JStr s => s
        | _ => JSON_stringify env t
        end
      else "(No transcription)"
  | Return None => "(No transcription)"
  | Throw error => "Error parsing result: " +:+ message error
  end.

Definition updateTranscriptionUI (result : json) : M world unit :=
  emit (Call_updateTranscriptionUI result);;
  resultsContainer ← gets resultsContainer;
  match resultsContainer with
  | None => ret tt
  | Some children =>
      console_log ("Updating UI with transcription result: "
                   +:+ JSON_stringify_indented env result);;
      let resultElement := {| timestamp := toLocaleTimeString env;
                              text := transcribedText result |} in
      modify (with_resultsContainer (Some (resultElement :: children)))
  end.

Definition renderAudioToWav (audioData : ref) : M world bytes :=
  emit Call_renderWavFile;;
  samples ← gets (fun w => array_at (store w) audioData);
  Stt.await (renderWavFile env samples
               {| isFloat := false;
                  numChannels := 1;
                  sampleRate := TARGET_SAMPLE_RATE |}).

Definition processAudioChunk (chunks : list chunk) : M world (option json) :=
  emit (Enter_processAudioChunk chunks);;
  try_catch
    (let numFrames := foldl (fun acc chunk => acc ++ chunk) [] chunks in
     originalAudioData ← on_store (new_Float32Array_from numFrames);
     console_log "Resampling audio from 44100Hz to 8000Hz";;
     emit Call_resampleAudio;;
     resampledAudioData ←
       on_store (resampleAudio originalAudioData DEVICE_SAMPLE_RATE TARGET_SAMPLE_RATE);
     wavData ← renderAudioToWav resampledAudioData;
     let timestamp := replace_colons_and_periods (toISOString env) in
     let filename := "chunk-" +:+ timestamp +:+ ".wav" in
     emit (Call_writeFile filename);;
     Stt.await (writeFile env filename wavData);;
     console_log ("Saved audio chunk to " +:+ filename
                  +:+ ", sending for transcription...");;
     emit Call_transcribeAudio;;
     result ← Stt.await (transcribeAudio env wavData);
     console_log "Transcription result:";;
     modify (fun w => with_transcriptionResults (transcriptionResults w ++ [result]) w);;
     updateTranscriptionUI result;;
     ret (Some result))
    (fun error =>
       console_error "Error processing audio chunk:" error;;
       ret None).

(** The next callback of the subscription, for a window that buffer
    emits. *)
Definition on_next (chunks : list chunk) : M world unit :=
  if (length chunks =? 0)%nat then ret tt
  else
    console_log ("Processing " +:+ pretty (length chunks)
                 +:+ " audio chunks after 30 seconds");;
    processAudioChunk chunks;;
    ret tt.

(** Whether a subscription still receives chunks and ticks. *)
Definition is_live (l : list pipeline) (id : nat) : bool :=
  match l !! id with
  | Some p => negb (closed p)
  | None => false
  end.

Definition live (w : world) (id : nat) : bool := is_live (pipelines w) id.

Definition buffer_of (w : world) (id : nat) : list chunk :=
  match pipelines w !! id with
  | Some p => buffered p
  | None => []
  end.

Definition with_buffer (id : nat) (b : list chunk) (w : world) : world :=
  with_pipelines
    (alter (fun p => {| buffered := b; closed := closed p |}) id (pipelines w)) w.

(** The end of a subscription; what it had buffered is dropped. *)
Definition end_pipeline (id : nat) : M world unit :=
  modify (fun w =>
    with_pipelines
      (alter (fun _ => {| buffered := []; closed := true |}) id (pipelines w)) w).

(** audio_stream().pipe(buffer(interval(30000)), takeUntil(stopSubject))
    .subscribe(...) *)
Definition subscribe : M world nat :=
  fun w => (Return (length (pipelines w)),
            with_pipelines
              (pipelines w ++ [{| buffered := []; closed := false |}]) w).

(** stopSubject.next(): takeUntil completes the subscription, whose
    complete callback logs. *)
Definition stopSubject_next (s : nat) : M world unit :=
  alive ← gets (fun w : world => live w s);
  if (alive : bool) then
    end_pipeline s;;
    console_log "Interval recording completed"
  else ret tt.

Definition unsubscribe (r : nat) : M world unit := end_pipeline r.

Definition startIntervalRecording : M world unit :=
  recording ← gets isRecording;
  if (recording : bool) then ret tt
  else
    modify (with_isRecording true);;
    modify (with_transcriptionResults []);;
    resultsContainer ← gets resultsContainer;
    match resultsContainer with
    | Some _ => modify (with_resultsContainer (Some []))
    | None => ret tt
    end;;
    console_log "Starting interval recording (30 second intervals)";;
    subscription ← subscribe;
    modify (with_recordingSubscription (Some subscription));;
    modify (with_stopRecordingSubject (Some subscription)).

Definition stopIntervalRecording : M world unit :=
  recording ← gets isRecording;
  if negb (recording : bool) then ret tt
  else
    console_log "Stopping interval recording";;
    stopSubject ← gets stopRecordingSubject;
    match stopSubject with
    | Some s =>
        stopSubject_next s;;
        modify (with_stopRecordingSubject None)
    | None => ret tt
    end;;
    subscription ← gets recordingSubscription;
    match subscription with
    | Some r =>
        unsubscribe r;;
        modify (with_recordingSubscription None)
    | None => ret tt
    end;;
    modify (with_isRecording false);;
    console_log "Recording stopped, transcription results:".

(** What happens to the page: a click on one of the two buttons, a chunk
    or an error from the capture source of a subscription, a tick of its
    interval. *)
Inductive stimulus :=
| ClickStart
| ClickStop
| SourceChunk (id : nat) (c : chunk)
| IntervalTick (id : nat)
| SourceError (id : nat) (err : exn).

(** A chunk is appended to the buffer.  A tick takes the buffer, leaves
    an empty one, and only then hands the window to the next callback;
    the handoff is run here to its end, the awaits it goes through are
    not interleaved with later stimuli. *)
Definition react (ev : stimulus) : M world unit :=
  match ev with
  | ClickStart => startIntervalRecording
  | ClickStop => stopIntervalRecording
  | SourceChunk id c =>
      alive ← gets (fun w : world => live w id);
      if (alive : bool) then modify (fun w => with_buffer id (buffer_of w id ++ [c]) w)
      else ret tt
  | IntervalTick id =>
      alive ← gets (fun w : world => live w id);
      if (alive : bool) then
        chunks ← gets (fun w : world => buffer_of w id);
        modify (with_buffer id []);;
        on_next chunks
      else ret tt
  | SourceError id err =>
      alive ← gets (fun w : world => live w id);
      if (alive : bool) then
        end_pipeline id;;
        console_error "Error in audio recording:" err;;
        stopIntervalRecording
      else ret tt
  end.

Fixpoint run (evs : list stimulus) (w : world) : world :=
  match evs with
  | [] => w
  | ev :: evs' => run evs' (state_after (react ev w))
  end.

End Script.

(** The page once init() has run: nothing is recording, and the results
    container exists and is empty. *)
Definition initial : world :=
  {| isRecording := false;
     recordingSubscription := None;
     transcriptionResults := [];
     stopRecordingSubject := None;
     resultsContainer := Some [];
     store := Heap [] [];
     pipelines := [];
     trace := [] |}.

(** The windows handed to processAudioChunk, in the order of the calls. *)
Definition handed (t : list event) : list (list chunk) :=
  omap (fun ev => match ev with
                  | Enter_processAudioChunk chunks => Some chunks
                  | _ => None
                  end) t.

(** What reaches one subscription: a chunk of the capture source, or a
    tick of the interval. *)
Inductive arrival :=
| Arrives (c : chunk)
| Ticks.

Definition stimuli (id : nat) (s : list arrival) : list stimulus :=
  map (fun a => match a with
                | Arrives c => SourceChunk id c
                | Ticks => IntervalTick id
                end) s.

(** The chunks of a stream of arrivals, in the order of arrival. *)
Definition chunk_stream (s : list arrival) : list chunk :=
  omap (fun a => match a with
                 | Arrives c => Some c
                 | Ticks => None
                 end) s.

(** The subscriptions that have not ended. *)
Definition active_sessions (w : world) : list pipeline :=
  filter (fun p => closed p = false) (pipelines w).

(** ** Notions used to state the properties *)

(** The part of the state that start, stop and the subscriptions own. *)
Definition session_of (w : world) : bool * option nat * option nat * list pipeline :=
  (isRecording w, recordingSubscription w, stopRecordingSubject w, pipelines w).

(** A computation is quiet when it leaves the session as it is and only
    adds events to the trace, none of them a call of processAudioChunk. *)
Definition quiet {A} (m : M world A) : Prop :=
  forall w, session_of (snd (m w)) = session_of w /\
            exists evs, trace (snd (m w)) = trace w ++ evs /\ handed evs = [].

(** Every subscription that has not ended is the one named by [o]. *)
Definition all_ended_except (o : option nat) (w : world) : Prop :=
  forall j, live w j = true -> o = Some j.

(** While recording, the subscription stored in recordingSubscription is
    the one that window.stopRecordingSubject stops, and no other one is
    live; while not recording, none is live. *)
Definition consistent (w : world) : Prop :=
  if isRecording w
  then recordingSubscription w = stopRecordingSubject w /\
       all_ended_except (recordingSubscription w) w
  else all_ended_except None w.

(** A state with one more subscription ended. *)
Definition ended (i : nat) (w : world) : world :=
  with_pipelines
    (alter (fun _ => {| buffered := []; closed := true |}) i (pipelines w)) w.

(** A state with one more line on the console. *)
Definition logged (msg : string) (w : world) : world :=
  with_trace (trace w ++ [Console_log msg]) w.

(** The state in which stop leaves a recording page. *)
Definition stopped (w : world) : world :=
  let w0 := logged "Stopping interval recording" w in
  let w1 :=
    match stopRecordingSubject w0 with
    | Some s =>
        with_stopRecordingSubject None
          (if live w0 s then logged "Interval recording completed" (ended s w0)
           else w0)
    | None => w0
    end in
  let w2 :=
    match recordingSubscription w1 with
    | Some r => with_recordingSubscription None (ended r w1)
    | None => w1
    end in
  logged "Recording stopped, transcription results:" (with_isRecording false w2).

Section Properties.

Variable env : collaborators.

(** A state the page can be in: the initial one, after any stimuli. *)
Definition reachable (w : world) : Prop :=
  exists evs, w = run env evs initial.

(** How an item of the array is shown, in the words of the interface: a
    sub-record that has a text is shown by its text, any other item by
    its String.  A text that is not a string is shown as join shows an
    element: null as the empty string, anything else as its String. *)
Definition shown_item (item : json) : string :=
  match item with
  | JObj fields =>
      match lookup_field "text" fields with
      | Some (JStr s) => s
      | Some JNull => EmptyString
      | Some t => ToString (Number_toString env) t
      | None => ToString (Number_toString env) item
      end
  | _ => ToString (Number_toString env) item
  end.

End Properties.

End Renderer.

(* ================================================================== *)
(** * Concrete runs *)
(* ================================================================== *)

Module Examples.
Import Number Effects Resampler Json Stt Renderer.

Definition half : number := div (ofZ 1) (ofZ 2).
Definition quarter : number := div (ofZ 1) (ofZ 4).

(** A store that holds one array of 480 samples of silence. *)
Definition silence480 : heap := Heap [replicate 480 (S754_zero false)] [].

(** A store that holds one array of two samples. *)
Definition two_samples : heap := Heap [[half; quarter]] [].

(** round(len * r2 / r1) in exact arithmetic, for whole rates. *)
Definition rounded_quotient (len r2 r1 : Z) : Z :=
  Qfloor (inject_Z (len * r2) / inject_Z r1 + (1 # 2))%Q.

(** An encoder to run the script with.  The encoder of ./wav is not
    among the sources, and the properties hold for any encoder; this one
    refuses zero samples, as the specification asks of the encoder, and
    gives two bytes for a sample. *)
Definition two_bytes_per_sample (samples : Float32Array) (o : wav_options)
    : outcome bytes :=
  match samples with
  | [] => Throw (Error "no samples")
  | _ => Return (flat_map (fun _ => [Byte.x00; Byte.x00]) samples)
  end.

(** A result as nodeAPI.transcribeAudio gives it. *)
Definition hello : json :=
  JObj [("text", JStr "hello"); ("confidence", JNum half);
        ("duration", JNum (ofZ 250))].

(** Every collaborator answers. *)
Definition all_well : collaborators :=
  {| renderWavFile := two_bytes_per_sample;
     writeFile := fun _ _ => Return tt;
     transcribeAudio := fun _ => Return hello;
     toISOString := "2024-01-02T03:04:05.678Z";
     toLocaleTimeString := "03:04:05";
     JSON_stringify := fun _ => "[json]";
     JSON_stringify_indented := fun _ => "[indented json]";
     Number_toString := fun _ => "[number]" |}.

(** The file cannot be written; the inference service would answer. *)
Definition disk_full : collaborators :=
  {| renderWavFile := two_bytes_per_sample;
     writeFile := fun _ _ => Throw (Error "ENOSPC");
     transcribeAudio := fun _ => Return hello;
     toISOString := "2024-01-02T03:04:05.678Z";
     toLocaleTimeString := "03:04:05";
     JSON_stringify := fun _ => "[json]";
     JSON_stringify_indented := fun _ => "[indented json]";
     Number_toString := fun _ => "[number]" |}.

(** A window of two chunks of three samples. *)
Definition six_samples : list chunk := [[half; quarter; half]; [quarter; half; quarter]].

(** A clock that advances 250 ms between two readings. *)
Definition clock (k : nat) : number := ofZ (1700000000000 + 250 * Z.of_nat k).

(** A service whose payload carries a duration of its own. *)
Definition payload : json :=
  JObj [("text", JStr "hello"); ("duration", JNum (ofZ 999))].

Definition answered (c : client) (command : InvokeEndpointCommand) : outcome (option bytes) :=
  Return (Some [Byte.x7b; Byte.x7d]).

Definition decoded (b : bytes) : outcome string := Return "[payload]".

Definition parsed (s : string) : outcome json := Return payload.

Definition idle : process := Process 0 [] [].

End Examples.

(* ================================================================== *)
(** * Notions for further properties *)
(* ================================================================== *)

Module Notions.
Import Number Effects Resampler Json Stt Renderer.

(** Whether an event is a call of a collaborator or of a function of
    the script. *)
Definition is_call (ev : event) : bool :=
  match ev with
  | Call_resampleAudio | Call_renderWavFile | Call_writeFile _
  | Call_transcribeAudio | Call_updateTranscriptionUI _ => true
  | Enter_processAudioChunk _ | Console_log _ | Console_error _ _ => false
  end.

(** The calls of a trace, in their order. *)
Definition calls (t : list event) : list event := List.filter is_call t.

(** The name under which processAudioChunk writes a window. *)
Definition filename_of (env : collaborators) : string :=
  "chunk-" +:+ replace_colons_and_periods (toISOString env) +:+ ".wav".

(** The element that updateTranscriptionUI makes for a result. *)
Definition shown_element (env : collaborators) (result : json) : element :=
  {| timestamp := toLocaleTimeString env; text := transcribedText env result |}.

(** The results container shows the results of the session, the latest
    first. *)
Definition mirrors (env : collaborators) (w : world) : Prop :=
  resultsContainer w
    = Some (reverse (map (shown_element env) (transcriptionResults w))).

(** A chunk or a tick, of any subscription. *)
Definition is_capture (ev : stimulus) : bool :=
  match ev with
  | SourceChunk _ _ | IntervalTick _ => true
  | ClickStart | ClickStop | SourceError _ _ => false
  end.

(** An option with the empty string taken for an absent one. *)
Definition without_empty (o : option string) : option string :=
  match o with
  | Some s => if String.eqb s EmptyString then None else Some s
  | None => None
  end.

Definition without_empty_options (options : TranscriptionOptions) : TranscriptionOptions :=
  {| region := without_empty (region options);
     profile := without_empty (profile options);
     endpointName := without_empty (endpointName options) |}.

(** The characters of a string. *)
Definition characters (s : string) : list ascii := String.list_ascii_of_string s.

(** Neither of the characters that the file name of a window must not
    take from the time stamp. *)
Definition plain (c : ascii) : Prop := c <> ":"%char /\ c <> "."%char.

(** The results and the display of [w'] are those of [w], or those of
    [w] with one more result, shown first. *)
Definition one_more_or_none (env : collaborators) (w w' : world) : Prop :=
  (transcriptionResults w' = transcriptionResults w /\
   resultsContainer w' = resultsContainer w) \/
  exists result,
    transcriptionResults w' = transcriptionResults w ++ [result] /\
    resultsContainer w' = cons (shown_element env result) <$> resultsContainer w.

(** A result that the service gave for bytes that had been written to
    the file of the window. *)
Definition from_service (env : collaborators) (result : json) : Prop :=
  exists wavData,
    writeFile env (filename_of env) wavData = Return tt /\
    transcribeAudio env wavData = Return result.

(** The steps of processAudioChunk that come before the window is
    written: the chunks are put into one array, which is resampled and
    encoded.  The outcome is the encoded buffer of the window. *)
Definition encode_window (env : collaborators) (chunks : list chunk) : M world bytes :=
  let numFrames := foldl (fun acc chunk => acc ++ chunk) [] chunks in
  originalAudioData ← on_store (new_Float32Array_from numFrames);
  console_log "Resampling audio from 44100Hz to 8000Hz";;
  emit Call_resampleAudio;;
  resampledAudioData ←
    on_store (resampleAudio originalAudioData DEVICE_SAMPLE_RATE TARGET_SAMPLE_RATE);
  renderAudioToWav env resampledAudioData.

(** Only the file of the window cannot be written; any other file can,
    and the inference service would answer. *)
Definition picky : collaborators :=
  {| renderWavFile := Examples.two_bytes_per_sample;
     writeFile := fun filename _ =>
       if String.eqb filename "chunk-2024-01-02T03-04-05-678Z.wav"
       then Throw (Error "EACCES") else Return tt;
     transcribeAudio := fun _ => Return Examples.hello;
     toISOString := "2024-01-02T03:04:05.678Z";
     toLocaleTimeString := "03:04:05";
     JSON_stringify := fun _ => "[json]";
     JSON_stringify_indented := fun _ => "[indented json]";
     Number_toString := fun _ => "[number]" |}.

(** The command that transcribeAudio sends. *)
Definition request (audioData : bytes) (options : TranscriptionOptions)
    : InvokeEndpointCommand :=
  {| EndpointName := or_default (endpointName options) DEFAULT_ENDPOINT_NAME;
     Body := audioData;
     ContentType := CONTENT_TYPE;
     Accept := ACCEPT_TYPE |}.

(** The options the encoder is called with. *)
Definition encoder_options : wav_options :=
  {| isFloat := false; numChannels := 1; sampleRate := TARGET_SAMPLE_RATE |}.

(** A service that cannot be reached. *)
Definition unreachable (c : client) (command : InvokeEndpointCommand)
    : outcome (option bytes) :=
  Throw (Error "ECONNREFUSED").

(** A payload that is the literal null. *)
Definition parsed_null (s : string) : outcome json := Return JNull.

End Notions.

(* ================================================================== *)
(** * Facts about numbers *)
(* ================================================================== *)

Module NumberFacts.
Import Number.

(** ** The sign of a rounded result *)

Lemma shr_1_nonneg (mrs : shr_record) :
  0 <= shr_m mrs -> 0 <= shr_m (shr_1 mrs).
Proof.
  destruct mrs as [m r s]; simpl.
  destruct m as [|p|p]; simpl; try lia.
  destruct p; simpl; lia.
Qed.

Lemma iter_pos_shr_1_nonneg (p : positive) (mrs : shr_record) :
  0 <= shr_m mrs -> 0 <= shr_m (SpecFloat.iter_pos shr_1 p mrs).
Proof.
  revert mrs; induction p as [p IH|p IH|]; intros mrs H; simpl.
  - apply IH, IH, shr_1_nonneg, H.
  - apply IH, IH, H.
  - apply shr_1_nonneg, H.
Qed.

Lemma shr_fexp_nonneg (m e : Z) (l : location) :
  0 <= m -> 0 <= shr_m (fst (shr_fexp prec emax m e l)).
Proof.
  intros H. unfold shr_fexp, shr.
  assert (H0 : 0 <= shr_m (shr_record_of_loc m l))
    by (destruct l as [|[]]; exact H).
  destruct (fexp prec emax (Zdigits2 m + e) - e) as [|p|p]; simpl;
    [exact H0 | apply iter_pos_shr_1_nonneg, H0 | exact H0].
Qed.

Lemma round_nearest_even_nonneg (m : Z) (l : location) :
  0 <= m -> 0 <= round_nearest_even m l.
Proof.
  intros H. destruct l as [|[]]; simpl; try lia.
  destruct (Z.even m); lia.
Qed.

Lemma binary_round_aux_signed (s : bool) (m e : Z) (l : location) :
  0 <= m -> signed s (binary_round_aux prec emax s m e l).
Proof.
  intros H. unfold binary_round_aux.
  pose proof (shr_fexp_nonneg m e l H) as H1.
  destruct (shr_fexp prec emax m e l) as [mrs' e']; simpl in H1.
  pose proof (shr_fexp_nonneg _ e' loc_Exact
                (round_nearest_even_nonneg _ (loc_of_shr_record mrs') H1)) as H2.
  destruct (shr_fexp prec emax _ e' loc_Exact) as [mrs'' e'']; simpl in H2.
  destruct (shr_m mrs'') as [|p|p]; simpl; [reflexivity | | lia].
  destruct (e'' <=? emax - prec); reflexivity.
Qed.

Lemma signed_false_nonneg (x : number) : signed false x -> nonneg x.
Proof. destruct x as [[]|[]| |[] m e]; simpl; intros H; try discriminate; auto. Qed.

Lemma binary_round_signed (s : bool) (m : positive) (e : Z) :
  signed s (binary_round prec emax s m e).
Proof.
  unfold binary_round.
  destruct (shl_align m e _) as [mz ez].
  apply binary_round_aux_signed; lia.
Qed.

Lemma ofZ_nonneg (z : Z) : 0 <= z -> nonneg (ofZ z).
Proof.
  intros H. unfold ofZ, binary_normalize.
  destruct z as [|p|p]; [exact I | | lia].
  apply signed_false_nonneg, binary_round_signed.
Qed.

Lemma div_positive_nonneg (x y : number) :
  positive_finite x -> positive_finite y -> nonneg (div x y).
Proof.
  destruct x as [| | |[] mx ex]; simpl; try contradiction.
  destruct y as [| | |[] my ey]; simpl; try contradiction.
  intros _ _. unfold div, SFdiv.
  destruct (SFdiv_core_binary prec emax (Z.pos mx) ex (Z.pos my) ey)
    as [[mz ez] lz] eqn:E.
  apply signed_false_nonneg. simpl. apply binary_round_aux_signed.
  unfold SFdiv_core_binary in E.
  destruct (Z.div_eucl _ (Z.pos my)) as [q r] eqn:D in E.
  inversion E; subst mz; clear E.
  match type of D with Z.div_eucl ?a ?b = _ =>
    assert (Ha : 0 <= a); [| pose proof (Z.div_pos a b Ha ltac:(lia)) as Hq;
                             unfold Z.div in Hq; rewrite D in Hq; exact Hq] end.
  destruct (ex - ey - _) as [|p|p]; try lia.
  rewrite Z.shiftl_mul_pow2 by lia. apply Z.mul_nonneg_nonneg; [lia|].
  apply Z.pow_nonneg; lia.
Qed.

(** A product with a strictly positive finite factor. *)
Lemma mul_nonneg_positive (x y : number) :
  nonneg x -> positive_finite y -> nonneg (mul x y).
Proof.
  destruct y as [| | |[] my ey]; simpl; try contradiction.
  destruct x as [[]|[]| |[] mx ex]; simpl; try contradiction; intros _ _;
    try exact I.
  apply signed_false_nonneg. unfold mul, SFmul. simpl.
  apply binary_round_aux_signed; lia.
Qed.

(** ** Floors *)

Lemma exact_nonneg (m : positive) (e : Z) : (0 <= exact false m e)%Q.
Proof.
  unfold exact. simpl. apply Qmult_le_0_compat.
  - unfold Qle; simpl; lia.
  - apply Qpower_0_le. discriminate.
Qed.

Lemma Math_floor_nonneg (x : number) :
  nonneg x ->
  Math_floor x = PosInf \/ exists z, Math_floor x = Int z /\ 0 <= z.
Proof.
  destruct x as [[]|[]| |[] m e]; cbn [nonneg Math_floor];
    try contradiction; intros _.
  - right; exists 0; split; [reflexivity | lia].
  - left; reflexivity.
  - right. eexists; split; [reflexivity|].
    change 0 with (Qfloor 0). apply Qfloor_resp_le, exact_nonneg.
Qed.

(** ** Equality *)

Lemma strict_eq_refl (x : number) : x <> nan -> strict_eq x x = true.
Proof.
  intros H. unfold strict_eq, SFeqb, SFcompare.
  destruct x as [[]|[]| |[] m e]; try reflexivity; try (contradiction H; reflexivity);
    rewrite Z.compare_refl, Pos.compare_cont_refl; reflexivity.
Qed.

End NumberFacts.

(* ================================================================== *)
(** * Facts about computations *)
(* ================================================================== *)

Module EffectsFacts.
Import Effects.

(** A loop whose body keeps an invariant and does not throw runs to its
    end and establishes the invariant at the final index. *)
Lemma for_loop_invariant {St} (I : Z -> St -> Prop) (body : Z -> M St unit) :
  forall (n : nat) (i : Z) (s : St),
    (forall j t, i <= j < i + Z.of_nat n -> I j t ->
       exists t', body j t = (Return tt, t') /\ I (j + 1) t') ->
    I i s ->
    exists s', for_loop n i body s = (Return tt, s') /\ I (i + Z.of_nat n) s'.
Proof.
  induction n as [|n IH]; intros i s Hbody Hi.
  - exists s. split; [reflexivity|]. now replace (i + Z.of_nat 0) with i by lia.
  - destruct (Hbody i s ltac:(lia) Hi) as (t & Hb & Ht).
    destruct (IH (i + 1) t) as (s' & Hl & Hs').
    + intros j u Hj Hu. apply Hbody; [lia | exact Hu].
    + exact Ht.
    + exists s'. split.
      * simpl. unfold bind. rewrite Hb. exact Hl.
      * now replace (i + Z.of_nat (S n)) with (i + 1 + Z.of_nat n) by lia.
Qed.

End EffectsFacts.

(* ================================================================== *)
(** * Facts about the resampler *)
(* ================================================================== *)

Module ResamplerFacts.
Import Number Effects Resampler NumberFacts EffectsFacts.

(** ** One iteration of the loop *)

Section Iteration.

Variables (audioData result : ref) (ratio : number).

Lemma body_eq (i : Z) (h : heap) :
  body audioData result ratio i h =
    (Return tt,
     Heap (if 0 <=? i
           then <[result := <[Z.to_nat i :=
                                fround (value_stored ratio (array_at h audioData) i)]>
                              (array_at h result)]> (arrays h)
           else arrays h)
          (reads h ++ map (pair audioData) (indices_read ratio (array_at h audioData) i))).
Proof.
  unfold body, value_stored, indices_read, clamps.
  unfold mbind, M_bind, bind, length_of, gets, get_element, set_element, modify.
  cbn [arrays reads].
  destruct (geb _ _); cbn [arrays reads array_at map]; unfold array_at;
    cbn [arrays reads]; rewrite <- ?app_assoc; reflexivity.
Qed.

End Iteration.

Lemma resampleAudio_eq (audioData : ref) (r1 r2 : number) (h : heap) :
  strict_eq r1 r2 = false ->
  resampleAudio audioData r1 r2 h =
    let ratio := div r1 r2 in
    let newLength :=
      Math_round (div (ofZ (Z.of_nat (length (array_at h audioData)))) ratio) in
    match new_Float32Array newLength h with
    | (Return result, h1) =>
        match for_loop (iterations newLength) 0 (body audioData result ratio) h1 with
        | (Return _, h2) => (Return result, h2)
        | (Throw e, h2) => (Throw e, h2)
        end
    | (Throw e, h1) => (Throw e, h1)
    end.
Proof.
  intros E. unfold resampleAudio. rewrite E.
  unfold mbind, M_bind, bind, length_of, gets. cbn zeta.
  destruct (new_Float32Array _ h) as [[result|e] h1]; reflexivity.
Qed.

(** ** Equal rates *)

(** C6. Resampling from a rate to the same rate returns the reference it
    was given and leaves the store as it was: the input array itself is
    the result, nothing is allocated, copied or read. *)
Theorem resample_identity (audioData : ref) (r : number) (h : heap) :
  r <> nan ->
  resampleAudio audioData r r h = (Return audioData, h).
Proof.
  intros H. unfold resampleAudio. rewrite (strict_eq_refl r H). reflexivity.
Qed.

(** ** The length of the result *)

Lemma ToIndex_iterations (n : integral) (k : nat) :
  ToIndex n = Some k -> iterations n = k.
Proof.
  destruct n as [z| | |]; simpl; try congruence.
  destruct ((0 <=? z) && (z <=? 2 ^ 53 - 1)); congruence.
Qed.

Lemma array_at_app_r (l : list Float32Array) (out : Float32Array) (rs : list (ref * integral)) :
  array_at (Heap (l ++ [out]) rs) (length l) = out.
Proof. unfold array_at; cbn [arrays]. now rewrite list_lookup_middle. Qed.

Lemma insert_app_last (l : list Float32Array) (out out' : Float32Array) :
  <[length l := out']> (l ++ [out]) = l ++ [out'].
Proof. rewrite insert_app_r_alt by lia. now rewrite Nat.sub_diag. Qed.

(** The loop fills the array allocated for the result and leaves the
    rest of the store alone. *)
Lemma loop_fills (audioData : ref) (ratio : number) (l : list Float32Array) :
  forall (n : nat) (out : Float32Array) (rs : list (ref * integral)),
  exists out' rs',
    for_loop n 0 (body audioData (length l) ratio) (Heap (l ++ [out]) rs)
      = (Return tt, Heap (l ++ [out']) rs') /\
    length out' = length out.
Proof.
  intros n out rs.
  destruct (for_loop_invariant
              (fun _ t => exists out' rs', t = Heap (l ++ [out']) rs' /\
                                           length out' = length out)
              (body audioData (length l) ratio) n 0 (Heap (l ++ [out]) rs))
    as (t & Hrun & out' & rs' & -> & Hlen).
  - intros j t Hj (o & q & -> & Hlen). rewrite body_eq.
    eexists; split; [reflexivity|].
    rewrite array_at_app_r. cbn [arrays reads].
    destruct (0 <=? j); [rewrite insert_app_last|]; do 2 eexists;
      (split; [reflexivity|]); rewrite ?length_insert; exact Hlen.
  - now exists out, rs.
  - exists out', rs'. now split.
Qed.

(** C4, as the code has it. For rates that differ, the result is a new
    array whose length is Math.round(length / (r1 / r2)), the two
    divisions rounded to binary64 in this order; when that is not a
    length an array can have, the call throws a RangeError. *)
Theorem resample_length (audioData : ref) (r1 r2 : number) (h : heap) :
  strict_eq r1 r2 = false ->
  match ToIndex (Math_round (div (ofZ (Z.of_nat (length (array_at h audioData))))
                                 (div r1 r2))) with
  | Some k =>
      exists h', resampleAudio audioData r1 r2 h = (Return (length (arrays h)), h') /\
                 length (array_at h' (length (arrays h))) = k
  | None =>
      resampleAudio audioData r1 r2 h
        = (Throw (RangeError "Invalid typed array length"), h)
  end.
Proof.
  intros E. rewrite (resampleAudio_eq _ _ _ _ E). cbn zeta.
  unfold new_Float32Array.
  destruct (ToIndex _) as [k|] eqn:Ek; [|reflexivity].
  rewrite (ToIndex_iterations _ _ Ek).
  destruct (loop_fills audioData (div r1 r2) (arrays h) k
              (replicate k (S754_zero false)) (reads h))
    as (out' & rs' & Hloop & Hlen).
  eexists. rewrite Hloop. split; [reflexivity|].
  rewrite array_at_app_r, Hlen. apply length_replicate.
Qed.

(** ** Reads stay in bounds, and the last sample is repeated *)

(** Unless the ratio is finite and not zero, the loop does not run: the
    length is zero or NaN, or so large that no array is made. *)
Lemma no_iteration_unless_finite (n ratio : number) :
  nonneg n -> nonneg ratio -> ~ positive_finite ratio ->
  ToIndex (Math_round (div n ratio)) = None \/
  iterations (Math_round (div n ratio)) = O.
Proof.
  destruct ratio as [[]|[]| |[] m e]; cbn [nonneg positive_finite];
    try contradiction; intros Hn _ H; try (contradiction H; exact I);
    destruct n as [[]|[]| |[] mn en]; cbn [nonneg] in Hn; try contradiction;
    cbn; auto.
Qed.

Lemma indices_in_bounds (audioData : ref) (ratio : number) (x : Float32Array) (j : Z) :
  positive_finite ratio -> x <> [] -> 0 <= j ->
  Forall (in_bounds audioData x) (map (pair audioData) (indices_read ratio x j)).
Proof.
  intros Hr Hx Hj.
  assert (Hlen : 0 < Z.of_nat (length x)) by (destruct x; [congruence | simpl; lia]).
  unfold indices_read, clamps.
  destruct (Math_floor_nonneg (mul (ofZ j) ratio)) as [E | (z & E & Hz)].
  { apply mul_nonneg_positive; [apply ofZ_nonneg, Hj | exact Hr]. }
  - rewrite E. cbn [geb map]. repeat constructor; cbn.
    exists (Z.of_nat (length x) - 1). split; [reflexivity | lia].
  - rewrite E. cbn [geb succ]. destruct (Z.leb_spec (Z.of_nat (length x) - 1) z).
    + repeat constructor; cbn.
      exists (Z.of_nat (length x) - 1). split; [reflexivity | lia].
    + repeat constructor; cbn; eexists; (split; [reflexivity | lia]).
Qed.

Lemma clamp_value (ratio : number) (x : Float32Array) (j : Z) :
  well_formed x -> x <> [] -> clamps ratio x j = true ->
  Some (fround (value_stored ratio x j)) = last x.
Proof.
  intros Hwf Hx Hc. unfold value_stored. rewrite Hc.
  assert (Hlen : (0 < length x)%nat) by (destruct x; [congruence | simpl; lia]).
  unfold element.
  destruct (Z.leb_spec 0 (Z.of_nat (length x) - 1)); [|lia].
  replace (Z.to_nat (Z.of_nat (length x) - 1)) with (Init.Nat.pred (length x)) by lia.
  rewrite last_lookup.
  destruct (lookup_lt_is_Some_2 x (Init.Nat.pred (length x)) ltac:(lia)) as [v Hv].
  rewrite Hv. cbn. f_equal.
  exact (proj1 (Forall_lookup _ x) Hwf _ _ Hv).
Qed.

Lemma loop_reads_and_clamps (audioData : ref) (ratio : number)
    (l : list (list number)) (x : Float32Array) :
  l !! audioData = Some x -> x <> [] -> well_formed x -> positive_finite ratio ->
  forall (n : nat) (out : Float32Array) (rs : list (ref * integral)),
  (n <= length out)%nat ->
  exists out' rs',
    for_loop n 0 (body audioData (length l) ratio) (Heap (l ++ [out]) rs)
      = (Return tt, Heap (l ++ [out']) (rs ++ rs')) /\
    length out' = length out /\
    Forall (in_bounds audioData x) rs' /\
    forall i : nat, (i < n)%nat -> clamps ratio x (Z.of_nat i) = true ->
                    out' !! i = last x.
Proof.
  intros Ha Hx Hwf Hr n out rs Hn.
  pose proof (lookup_lt_Some _ _ _ Ha) as Hlt.
  destruct (for_loop_invariant
              (fun j t => exists out' rs',
                 t = Heap (l ++ [out']) (rs ++ rs') /\
                 length out' = length out /\
                 Forall (in_bounds audioData x) rs' /\
                 forall i : nat, Z.of_nat i < j ->
                                 clamps ratio x (Z.of_nat i) = true ->
                                 out' !! i = last x)
              (body audioData (length l) ratio) n 0 (Heap (l ++ [out]) rs))
    as (t & Hrun & out' & rs' & -> & Hlen & Hrs & Hcl).
  - intros j t Hj (o & q & -> & Hlen & Hq & Hcl). rewrite body_eq.
    eexists; split; [reflexivity|].
    rewrite array_at_app_r.
    assert (Hx' : array_at (Heap (l ++ [o]) (rs ++ q)) audioData = x).
    { unfold array_at; cbn [arrays]. rewrite lookup_app_l by exact Hlt.
      now rewrite Ha. }
    rewrite Hx'. cbn [arrays reads].
    destruct (Z.leb_spec 0 j); [|lia].
    rewrite insert_app_last, <- app_assoc.
    do 2 eexists; split; [reflexivity|]. split; [|split].
    + now rewrite length_insert.
    + apply Forall_app; split; [exact Hq|].
      apply indices_in_bounds; [exact Hr | exact Hx | lia].
    + intros i Hi Hc. destruct (decide (i = Z.to_nat j)) as [->|Hne].
      * rewrite list_lookup_insert_eq by lia.
        rewrite Z2Nat.id in Hc by lia. apply clamp_value; assumption.
      * rewrite list_lookup_insert_ne by congruence. apply Hcl; [lia | exact Hc].
  - exists out, []. rewrite app_nil_r. repeat split; [constructor | lia].
  - exists out', rs'. repeat split; try assumption.
    intros i Hi Hc. apply Hcl; [lia | exact Hc].
Qed.

(** C5. With positive rates and a non-empty input, every element read
    is read from the input at an index from 0 to length - 1; and, when
    the rates differ, every output sample whose source position has its
    floor at the last index or beyond is the last input sample. *)
Theorem resample_reads_in_bounds_and_clamps
    (audioData : ref) (x : Float32Array) (r1 r2 : number) (h h' : heap) (result : ref) :
  arrays h !! audioData = Some x ->
  x <> [] ->
  well_formed x ->
  positive_finite r1 ->
  positive_finite r2 ->
  resampleAudio audioData r1 r2 h = (Return result, h') ->
  (exists rs, reads h' = reads h ++ rs /\ Forall (in_bounds audioData x) rs) /\
  (strict_eq r1 r2 = false ->
   forall i : nat,
     (i < length (array_at h' result))%nat ->
     geb (Math_floor (mul (ofZ (Z.of_nat i)) (div r1 r2)))
         (Z.of_nat (length x) - 1) = true ->
     array_at h' result !! i = last x).
Proof.
  intros Ha Hx Hwf Hr1 Hr2 Hrun.
  destruct (strict_eq r1 r2) eqn:E.
  { unfold resampleAudio in Hrun. rewrite E in Hrun. inversion Hrun; subst.
    split; [|discriminate]. exists []. rewrite app_nil_r. split; [reflexivity|constructor]. }
  rewrite (resampleAudio_eq _ _ _ _ E) in Hrun. cbn zeta in Hrun.
  assert (Hx' : array_at h audioData = x) by (unfold array_at; now rewrite Ha).
  rewrite Hx' in Hrun. unfold new_Float32Array in Hrun.
  set (n := Math_round (div (ofZ (Z.of_nat (length x))) (div r1 r2))) in *.
  destruct (ToIndex n) as [k|] eqn:Ek; [|discriminate].
  pose proof (ToIndex_iterations _ _ Ek) as Hk.
  destruct (decide (k = O)) as [->|Hpos].
  { rewrite Hk in Hrun. cbn in Hrun. inversion Hrun; subst result h'. split.
    - exists []. cbn. rewrite app_nil_r. split; [reflexivity|constructor].
    - intros _ i Hi. rewrite array_at_app_r in Hi. cbn in Hi. lia. }
  assert (Hratio : positive_finite (div r1 r2)).
  { assert (Hdec : positive_finite (div r1 r2) \/ ~ positive_finite (div r1 r2))
      by (destruct (div r1 r2) as [| | |[] ? ?]; cbn; auto).
    destruct Hdec as [H|H]; [exact H | exfalso].
    destruct (no_iteration_unless_finite (ofZ (Z.of_nat (length x))) (div r1 r2)
                (ofZ_nonneg _ (Nat2Z.is_nonneg (length x)))
                (div_positive_nonneg r1 r2 Hr1 Hr2) H)
      as [H1|H1].
    - change (ToIndex n = None) in H1. congruence.
    - change (iterations n = O) in H1. congruence. }
  rewrite Hk in Hrun.
  destruct (loop_reads_and_clamps audioData (div r1 r2) (arrays h) x Ha Hx Hwf Hratio
              k (replicate k (S754_zero false)) (reads h))
    as (out' & rs' & Hloop & Hlen & Hrs & Hcl).
  { now rewrite length_replicate. }
  rewrite Hloop in Hrun. inversion Hrun; subst result h'. split.
  - exists rs'. now split.
  - intros _ i Hi Hc. rewrite array_at_app_r in Hi |- *.
    rewrite Hlen, length_replicate in Hi. apply Hcl; [exact Hi | exact Hc].
Qed.

End ResamplerFacts.

(* ================================================================== *)
(** * Facts about transcribeAudio *)
(* ================================================================== *)

Module SttFacts.
Import Number Effects Json Stt Notions.

Lemma lookup_set_field (k : string) (v : json) (o : list (string * json)) :
  lookup_field k (set_field k v o) = Some v.
Proof.
  induction o as [|[k' v'] o IH]; simpl.
  - now rewrite String.eqb_refl.
  - destruct (String.eqb k' k) eqn:E; simpl; rewrite E; [reflexivity | exact IH].
Qed.

(** The names of the properties after an assignment. *)
Lemma set_field_names (k : string) (v : json) (o : list (string * json)) :
  (set_field k v o).*1 = if decide (k ∈ o.*1) then o.*1 else o.*1 ++ [k].
Proof.
  induction o as [|[k' v'] o IH]; [reflexivity|]. cbn [set_field fmap list_fmap fst].
  destruct (String.eqb_spec k' k) as [->|Hne]; cbn [fmap list_fmap fst].
  - destruct (decide (k ∈ k :: o.*1)) as [_|Hn]; [reflexivity|].
    contradiction Hn. left.
  - rewrite IH. destruct (decide (k ∈ o.*1)) as [Hin|Hnin];
      destruct (decide (k ∈ k' :: o.*1)) as [Hin'|Hnin']; try reflexivity.
    + contradiction Hnin'. now right.
    + apply elem_of_cons in Hin' as [->|Hin']; [congruence | contradiction].
Qed.

Lemma set_field_NoDup (k : string) (v : json) (o : list (string * json)) :
  NoDup o.*1 -> NoDup (set_field k v o).*1.
Proof.
  intros H. rewrite set_field_names. destruct (decide (k ∈ o.*1)) as [_|Hn]; [exact H|].
  apply NoDup_app. split; [exact H|]. split; [|apply NoDup_singleton].
  intros x Hx Hk. apply list_elem_of_singleton in Hk as ->. contradiction.
Qed.

(** An object built by a spread has no property twice. *)
Lemma spread_NoDup (source : json) (target : list (string * json)) :
  NoDup target.*1 -> NoDup (spread source target).*1.
Proof.
  unfold spread. generalize (own_properties source). intros props.
  revert target. induction props as [|[k v] props IH]; intros target H; [exact H|].
  cbn [foldl]. apply IH, set_field_NoDup, H.
Qed.

Section Facts.

Variable Date_now_at : nat -> number.
Variable send : client -> InvokeEndpointCommand -> outcome (option bytes).
Variable decode : bytes -> outcome string.
Variable JSON_parse : string -> outcome json.

Let transcribeAudio := Stt.transcribeAudio Date_now_at send decode JSON_parse.
Let failure_cause := Stt.failure_cause send decode JSON_parse.
Let measured := Stt.measured Date_now_at.

(** What the call returns, by the way the response goes. *)
Lemma transcribeAudio_cases (audioData : bytes) (options : TranscriptionOptions)
    (p : process) :
  match fst (transcribeAudio audioData options p) with
  | Throw _ => failure_cause audioData options
  | Return r =>
      ~ failure_cause audioData options /\
      exists fields, r = JObj fields /\ NoDup fields.*1 /\
                     lookup_field "duration" fields = Some (JNum (measured p))
  end.
Proof.
  unfold transcribeAudio, failure_cause, measured, Stt.transcribeAudio,
    Stt.failure_cause, Stt.measured.
  unfold mbind, M_bind, bind, try_catch, Date_now, console_log, console_error,
    await, recorded, modify, throw, mret, M_ret, ret.
  cbn [clock_reads console steps fst snd].
  destruct (send _ _) as [[body|]|e]; cbn; auto.
  destruct (decode body) as [jsonString|e]; cbn; auto.
  destruct (JSON_parse jsonString) as [jsonObject|e]; cbn; auto.
  split; [tauto|]. eexists; split; [reflexivity|]. split; [|apply lookup_set_field].
  apply set_field_NoDup, spread_NoDup, NoDup_nil_2.
Qed.

(** C8. transcribeAudio throws exactly when the transport call errors,
    the response has no body, or the body does not decode or parse; in
    every other case it returns a record. *)
Theorem transcribeAudio_fails_iff (audioData : bytes) (options : TranscriptionOptions)
    (p : process) :
  ((exists e, fst (transcribeAudio audioData options p) = Throw e)
     <-> failure_cause audioData options) /\
  ((exists fields, fst (transcribeAudio audioData options p) = Return (JObj fields))
     <-> ~ failure_cause audioData options).
Proof.
  pose proof (transcribeAudio_cases audioData options p) as H.
  destruct (fst (transcribeAudio audioData options p)) as [r|e].
  - destruct H as (Hn & fields & -> & _ & _). split; split.
    + intros [e He]; discriminate.
    + intros Hc; contradiction.
    + intros _; exact Hn.
    + intros _; now exists fields.
  - split; split.
    + intros _; exact H.
    + intros _; now exists e.
    + intros [fields Hf]; discriminate.
    + intros Hn; contradiction.
Qed.

(** C10. The record a successful call returns has the measured round
    trip of the inference call as its duration.  The call reads the
    clock twice: the first reading is the step right before the request
    is sent, the second the step right after its response has come and
    before the body is decoded and parsed; the duration is the second
    reading minus the first.  The record has no second duration, so one
    that the payload of the service carries is not returned. *)
Theorem transcribeAudio_duration (audioData : bytes) (options : TranscriptionOptions)
    (p p' : process) (result : json) :
  transcribeAudio audioData options p = (Return result, p') ->
  exists fields body jsonString,
    result = JObj fields /\
    NoDup fields.*1 /\
    lookup_field "duration" fields
      = Some (JNum (sub (Date_now_at (S (clock_reads p)))
                        (Date_now_at (clock_reads p)))) /\
    lookup_field "duration" fields = Some (JNum (measured p)) /\
    send (createClient options) (request audioData options) = Return (Some body) /\
    decode body = Return jsonString /\
    steps p' = steps p ++ [Clock_read (clock_reads p);
                           Request_sent (createClient options)
                                        (request audioData options);
                           Clock_read (S (clock_reads p));
                           Decoded body;
                           Parsed jsonString] /\
    clock_reads p' = S (S (clock_reads p)).
Proof.
  unfold transcribeAudio, measured, Stt.transcribeAudio, Stt.measured, request.
  unfold mbind, M_bind, bind, try_catch, Date_now, console_log, console_error,
    await, recorded, modify, throw, mret, M_ret, ret.
  cbn [clock_reads console steps fst snd].
  destruct (send _ _) as [[body|]|e] eqn:Es; cbn [fst snd]; try discriminate.
  destruct (decode body) as [jsonString|e] eqn:Ed; cbn [fst snd]; try discriminate.
  destruct (JSON_parse jsonString) as [jsonObject|e]; cbn [fst snd]; try discriminate.
  intros H. injection H as <- <-. cbn [clock_reads steps].
  eexists. exists body, jsonString.
  split; [reflexivity|].
  split; [apply set_field_NoDup, spread_NoDup, NoDup_nil_2|].
  split; [apply lookup_set_field|]. split; [apply lookup_set_field|].
  split; [reflexivity|]. split; [exact Ed|].
  split; [|reflexivity]. rewrite <- !app_assoc. reflexivity.
Qed.

End Facts.

End SttFacts.

(* ================================================================== *)
(** * Facts about the renderer script *)
(* ================================================================== *)

Module RendererFacts.
Import Number Effects Resampler Json Renderer EffectsFacts Notions.

(** ** Computations that leave the session alone *)

Lemma handed_app (t1 t2 : list event) : handed (t1 ++ t2) = handed t1 ++ handed t2.
Proof. apply omap_app. Qed.

Lemma quiet_ret {A} (a : A) : quiet (ret a).
Proof. intros w; split; [reflexivity|]. exists []. now rewrite app_nil_r. Qed.

Lemma quiet_bind {A B} (m : M world A) (k : A -> M world B) :
  quiet m -> (forall a, quiet (k a)) -> quiet (m ≫= k).
Proof.
  intros Hm Hk w. unfold mbind, M_bind, bind.
  destruct (Hm w) as (Hs & evs & Ht & Hh).
  destruct (m w) as [[a|e] w1]; cbn in *; [|split; [exact Hs | now exists evs]].
  destruct (Hk a w1) as (Hs' & evs' & Ht' & Hh').
  split; [congruence|]. exists (evs ++ evs').
  rewrite Ht', Ht, <- app_assoc, handed_app, Hh, Hh'. now split.
Qed.

Lemma quiet_try_catch {A} (body : M world A) (handler : exn -> M world A) :
  quiet body -> (forall e, quiet (handler e)) -> quiet (try_catch body handler).
Proof.
  intros Hm Hk w. unfold try_catch.
  destruct (Hm w) as (Hs & evs & Ht & Hh).
  destruct (body w) as [[a|e] w1]; cbn in *; [split; [exact Hs | now exists evs]|].
  destruct (Hk e w1) as (Hs' & evs' & Ht' & Hh').
  split; [congruence|]. exists (evs ++ evs').
  rewrite Ht', Ht, <- app_assoc, handed_app, Hh, Hh'. now split.
Qed.

Lemma quiet_gets {A} (f : world -> A) : quiet (gets f).
Proof. intros w; split; [reflexivity|]. exists []. now rewrite app_nil_r. Qed.

Lemma quiet_await {A} (o : outcome A) : quiet (Stt.await o).
Proof. intros w; split; [reflexivity|]. exists []. now rewrite app_nil_r. Qed.

Lemma quiet_emit (ev : event) : handed [ev] = [] -> quiet (emit ev).
Proof. intros H w; split; [reflexivity|]. now exists [ev]. Qed.

Lemma quiet_console_log (msg : string) : quiet (console_log msg).
Proof. now apply quiet_emit. Qed.

Lemma quiet_console_error (msg : string) (e : exn) : quiet (console_error msg e).
Proof. now apply quiet_emit. Qed.

Lemma quiet_on_store {A} (m : M heap A) : quiet (on_store m).
Proof.
  intros w. unfold on_store, zoom. destruct (m (store w)) as [o h]; cbn.
  split; [reflexivity|]. exists []. now rewrite app_nil_r.
Qed.

Lemma quiet_with_transcriptionResults (f : world -> list json) :
  quiet (modify (fun w => with_transcriptionResults (f w) w)).
Proof. intros w; split; [reflexivity|]. exists []. now rewrite app_nil_r. Qed.

Lemma quiet_with_resultsContainer (c : option (list element)) :
  quiet (modify (with_resultsContainer c)).
Proof. intros w; split; [reflexivity|]. exists []. now rewrite app_nil_r. Qed.

Create HintDb quiet.
#[local] Hint Resolve quiet_ret quiet_gets quiet_await quiet_console_log
  quiet_console_error quiet_on_store quiet_with_transcriptionResults
  quiet_with_resultsContainer : quiet.

Ltac quiet_steps :=
  repeat first
    [ apply quiet_bind; [|intros ?]
    | apply quiet_try_catch; [|intros ?]
    | apply quiet_ret
    | now apply quiet_emit
    | solve [auto with quiet]
    | match goal with
      | |- quiet (match ?x with _ => _ end) => destruct x
      end ].

Ltac fields :=
  cbn [isRecording recordingSubscription transcriptionResults
       stopRecordingSubject resultsContainer store pipelines trace
       with_isRecording with_recordingSubscription with_transcriptionResults
       with_stopRecordingSubject with_resultsContainer with_store
       with_pipelines with_trace].

Ltac fields_in H :=
  cbn [isRecording recordingSubscription transcriptionResults
       stopRecordingSubject resultsContainer store pipelines trace
       with_isRecording with_recordingSubscription with_transcriptionResults
       with_stopRecordingSubject with_resultsContainer with_store
       with_pipelines with_trace] in H.

Ltac run_segment :=
  unfold processAudioChunk, renderAudioToWav, updateTranscriptionUI, on_store,
    zoom, new_Float32Array_from, Stt.await, console_log, console_error, emit,
    mbind, M_bind, bind, try_catch, modify, gets, mret, M_ret, ret;
  cbn [fst snd]; fields.

Ltac close_trace :=
  fields; rewrite <- ?app_assoc; cbn [app]; fields.

Ltac among :=
  solve [repeat first [apply list_elem_of_here | apply list_elem_of_further]].

Ltac not_among :=
  let H := fresh in
  intros H;
  repeat (apply elem_of_cons in H as [H|H]; [discriminate H|]);
  now apply elem_of_nil in H.

Section Facts.

Variable env : collaborators.

Lemma quiet_updateTranscriptionUI (result : json) :
  quiet (updateTranscriptionUI env result).
Proof.
  unfold updateTranscriptionUI. quiet_steps.
Qed.

Lemma quiet_renderAudioToWav (audioData : ref) : quiet (renderAudioToWav env audioData).
Proof. unfold renderAudioToWav. quiet_steps. Qed.

(** processAudioChunk leaves the session alone, and records one call of
    itself, with the window it was given. *)
Lemma processAudioChunk_session (chunks : list chunk) (w : world) :
  session_of (snd (processAudioChunk env chunks w)) = session_of w /\
  handed (trace (snd (processAudioChunk env chunks w))) = handed (trace w) ++ [chunks].
Proof.
  unfold processAudioChunk.
  set (rest := try_catch _ _).
  assert (Hq : quiet rest).
  { unfold rest. quiet_steps. }
  unfold mbind, M_bind, bind, emit, modify. cbn.
  destruct (Hq (with_trace (trace w ++ [Enter_processAudioChunk chunks]) w))
    as (Hs & evs & Ht & Hh).
  split; [exact Hs|].
  rewrite Ht. cbn [trace with_trace]. rewrite !handed_app, Hh, app_nil_r. reflexivity.
Qed.

Lemma on_next_session (chunks : list chunk) (w : world) :
  session_of (snd (on_next env chunks w)) = session_of w /\
  handed (trace (snd (on_next env chunks w)))
    = handed (trace w) ++ (if decide (chunks = []) then [] else [chunks]).
Proof.
  unfold on_next. destruct chunks as [|c chunks].
  - cbn. now rewrite app_nil_r.
  - cbn [length Nat.eqb]. destruct (decide (c :: chunks = [])) as [|_]; [congruence|].
    unfold mbind, M_bind, bind, console_log, emit, modify.
    set (w1 := with_trace _ w).
    destruct (processAudioChunk_session (c :: chunks) w1) as (Hs & Ht).
    destruct (processAudioChunk env (c :: chunks) w1) as [[o|e] w2]; cbn in *;
      (split; [exact Hs|]); rewrite Ht; unfold w1; cbn [trace with_trace];
      rewrite handed_app; cbn; now rewrite app_nil_r.
Qed.

(** ** The buffer of a subscription *)

Lemma live_lt (w : world) (id : nat) :
  live w id = true -> (id < length (pipelines w))%nat.
Proof.
  unfold live, is_live. destruct (pipelines w !! id) eqn:E; [|discriminate].
  intros _. eapply lookup_lt_Some, E.
Qed.

Lemma live_with_buffer (w : world) (id j : nat) (b : list chunk) :
  live (with_buffer id b w) j = live w j.
Proof.
  unfold live, is_live, with_buffer. cbn [pipelines with_pipelines].
  destruct (decide (id = j)) as [->|Hne].
  - rewrite list_lookup_alter_eq. destruct (pipelines w !! j); reflexivity.
  - now rewrite list_lookup_alter_ne.
Qed.

Lemma buffer_of_with_buffer (w : world) (id : nat) (b : list chunk) :
  live w id = true -> buffer_of (with_buffer id b w) id = b.
Proof.
  unfold live, is_live, buffer_of, with_buffer. cbn [pipelines with_pipelines].
  rewrite list_lookup_alter_eq. destruct (pipelines w !! id); [reflexivity|discriminate].
Qed.

Lemma session_live (w w' : world) (id : nat) :
  session_of w' = session_of w -> live w' id = live w id.
Proof. unfold session_of, live. intros H. injection H as _ _ _ ->. reflexivity. Qed.

Lemma session_buffer_of (w w' : world) (id : nat) :
  session_of w' = session_of w -> buffer_of w' id = buffer_of w id.
Proof. unfold session_of, buffer_of. intros H. injection H as _ _ _ ->. reflexivity. Qed.

(** ** No chunk is counted twice or lost *)

(** Whatever chunks and ticks reach a live subscription, the windows
    handed over so far, followed by what is buffered, are the chunks
    that arrived, in their order. *)
Lemma windows_and_buffer (id : nat) (s : list arrival) :
  forall w, live w id = true ->
  let w' := run env (stimuli id s) w in
  live w' id = true /\
  exists windows,
    handed (trace w') = handed (trace w) ++ windows /\
    concat windows ++ buffer_of w' id = buffer_of w id ++ chunk_stream s.
Proof.
  induction s as [|a s IH]; intros w Hlive; cbn zeta.
  - split; [exact Hlive|]. exists []. cbn. now rewrite !app_nil_r.
  - cbn [stimuli map run]. fold (stimuli id s).
    destruct a as [c|]; cbn [react].
    + unfold mbind, M_bind, bind, gets, state_after. rewrite Hlive.
      cbn [modify snd fst].
      set (w1 := with_buffer id (buffer_of w id ++ [c]) w).
      destruct (IH w1) as (Hl & windows & Ht & Hc).
      { unfold w1. now rewrite live_with_buffer. }
      split; [exact Hl|]. exists windows. split; [exact Ht|].
      rewrite Hc. unfold w1. rewrite buffer_of_with_buffer by exact Hlive.
      cbn. now rewrite <- app_assoc.
    + unfold mbind, M_bind, bind, gets, state_after. rewrite Hlive.
      cbn [modify snd fst].
      set (w1 := with_buffer id [] w).
      destruct (on_next_session (buffer_of w id) w1) as (Hs & Ht1).
      set (w2 := snd (on_next env (buffer_of w id) w1)) in *.
      destruct (IH w2) as (Hl & windows & Ht & Hc).
      { rewrite (session_live w1 w2 id Hs). unfold w1. now rewrite live_with_buffer. }
      split; [exact Hl|].
      exists ((if decide (buffer_of w id = []) then [] else [buffer_of w id]) ++ windows).
      split.
      * rewrite Ht, Ht1. unfold w1. cbn [trace with_buffer with_pipelines].
        now rewrite <- app_assoc.
      * rewrite concat_app, <- app_assoc, Hc.
        rewrite (session_buffer_of w1 w2 id Hs). unfold w1.
        rewrite buffer_of_with_buffer by exact Hlive. cbn.
        destruct (decide (buffer_of w id = [])) as [->|_]; cbn;
          now rewrite ?app_nil_r.
Qed.

Lemma run_app (evs1 evs2 : list stimulus) (w : world) :
  run env (evs1 ++ evs2) w = run env evs2 (run env evs1 w).
Proof. revert w; induction evs1 as [|ev evs1 IH]; intros w; [reflexivity | apply IH]. Qed.

Lemma stimuli_app (id : nat) (s1 s2 : list arrival) :
  stimuli id (s1 ++ s2) = stimuli id s1 ++ stimuli id s2.
Proof. apply List.map_app. Qed.

(** What start does when nothing is recording. *)
Lemma start_fresh (w : world) :
  isRecording w = false ->
  let w' := state_after (startIntervalRecording w) in
  isRecording w' = true /\
  recordingSubscription w' = Some (length (pipelines w)) /\
  stopRecordingSubject w' = Some (length (pipelines w)) /\
  pipelines w' = pipelines w ++ [{| buffered := []; closed := false |}] /\
  transcriptionResults w' = [] /\
  handed (trace w') = handed (trace w).
Proof.
  intros H. unfold startIntervalRecording, state_after.
  unfold mbind, M_bind, bind, gets, modify, console_log, emit, subscribe.
  rewrite H. cbn.
  destruct (resultsContainer w); cbn; rewrite handed_app; cbn;
    rewrite app_nil_r; repeat split; reflexivity.
Qed.

Lemma tick_empties_buffer (id : nat) (w : world) :
  live w id = true -> buffer_of (run env [IntervalTick id] w) id = [].
Proof.
  intros Hl. cbn [run react]. unfold mbind, M_bind, bind, gets, state_after.
  rewrite Hl. cbn [modify snd fst].
  destruct (on_next_session (buffer_of w id) (with_buffer id [] w)) as (Hs & _).
  rewrite (session_buffer_of _ _ id Hs). now apply buffer_of_with_buffer.
Qed.

(** C2. From the start of a session, for every stream of chunks and
    every schedule of ticks in it, with no stop in between: the windows
    handed to processAudioChunk, put one after the other and followed by
    what is still buffered, are the chunks that arrived, in the order of
    their arrival; so, when a tick has closed the last window, the
    windows alone are the whole stream. *)
Theorem no_double_counting (w : world) (s : list arrival) :
  isRecording w = false ->
  let started := state_after (startIntervalRecording w) in
  let id := length (pipelines w) in
  let w' := run env (stimuli id s) started in
  exists windows,
    handed (trace w') = handed (trace w) ++ windows /\
    concat windows ++ buffer_of w' id = chunk_stream s /\
    (last s = Some Ticks -> concat windows = chunk_stream s).
Proof.
  intros H started id. cbn zeta.
  destruct (start_fresh w H) as (_ & _ & _ & Hp & _ & Ht).
  fold started in Hp, Ht. fold id in Hp.
  assert (Hlive : live started id = true).
  { unfold live, is_live. rewrite Hp, list_lookup_middle by reflexivity. reflexivity. }
  assert (Hbuf : buffer_of started id = []).
  { unfold buffer_of. rewrite Hp, list_lookup_middle by reflexivity. reflexivity. }
  destruct (windows_and_buffer id s started Hlive) as (_ & windows & Hw & Hc).
  rewrite Hbuf in Hc. cbn [app] in Hc.
  exists windows. split; [now rewrite Hw, Ht|]. split; [exact Hc|].
  intros Hlast. apply last_Some in Hlast as [s0 ->].
  rewrite stimuli_app, run_app in Hc. cbn [stimuli map] in Hc.
  rewrite tick_empties_buffer, app_nil_r in Hc; [exact Hc|].
  now destruct (windows_and_buffer id s0 started Hlive) as (Hl & _).
Qed.

(** ** Start and stop *)

Lemma start_when_recording (w : world) :
  isRecording w = true -> startIntervalRecording w = (Return tt, w).
Proof.
  intros H. unfold startIntervalRecording, mbind, M_bind, bind, gets.
  rewrite H. reflexivity.
Qed.

Lemma stop_when_idle (w : world) :
  isRecording w = false -> stopIntervalRecording w = (Return tt, w).
Proof.
  intros H. unfold stopIntervalRecording, mbind, M_bind, bind, gets.
  rewrite H. reflexivity.
Qed.

Lemma consistent_session (w w' : world) :
  session_of w' = session_of w -> consistent w -> consistent w'.
Proof.
  intros Hs. unfold consistent, all_ended_except.
  pose proof (fun j => session_live w w' j Hs) as Hl.
  unfold session_of in Hs. injection Hs as -> -> -> _.
  destruct (isRecording w); [intros [He H]; split; [exact He|] | intros H];
    intros j Hj; apply H; now rewrite <- Hl.
Qed.

Lemma live_end_pipeline (w : world) (id j : nat) :
  live (snd (end_pipeline id w)) j = live w j && negb (Nat.eqb j id).
Proof.
  unfold end_pipeline, modify, live, is_live. cbn [snd pipelines with_pipelines].
  destruct (Nat.eqb_spec j id) as [->|Hne].
  - rewrite list_lookup_alter_eq. destruct (pipelines w !! id); cbn;
      [now rewrite andb_false_r | reflexivity].
  - rewrite list_lookup_alter_ne by congruence. now rewrite andb_true_r.
Qed.

Lemma consistent_with_buffer (w : world) (id : nat) (b : list chunk) :
  consistent w -> consistent (with_buffer id b w).
Proof.
  unfold consistent, all_ended_except. cbn [isRecording with_buffer with_pipelines
    recordingSubscription stopRecordingSubject].
  destruct (isRecording w); [intros [He H]; split; [exact He|] | intros H];
    intros j Hj; apply H; now rewrite live_with_buffer in Hj.
Qed.

Lemma consistent_end_pipeline (w : world) (id : nat) :
  consistent w -> consistent (snd (end_pipeline id w)).
Proof.
  unfold consistent, all_ended_except.
  change (isRecording (snd (end_pipeline id w))) with (isRecording w).
  change (recordingSubscription (snd (end_pipeline id w))) with (recordingSubscription w).
  change (stopRecordingSubject (snd (end_pipeline id w))) with (stopRecordingSubject w).
  destruct (isRecording w); [intros [He H]; split; [exact He|] | intros H];
    intros j Hj; apply H; rewrite live_end_pipeline in Hj;
    now apply andb_true_iff in Hj.
Qed.

Lemma consistent_start (w : world) :
  consistent w -> consistent (state_after (startIntervalRecording w)).
Proof.
  intros Hc. destruct (isRecording w) eqn:E.
  - now rewrite (start_when_recording w E).
  - destruct (start_fresh w E) as (Hr & Hsub & Hstop & Hp & _).
    unfold consistent in *. rewrite E in Hc. rewrite Hr, Hsub, Hstop.
    split; [reflexivity|]. intros j Hj. f_equal.
    destruct (decide (j < length (pipelines w))%nat) as [Hlt|Hge].
    + exfalso. assert (Hold : live w j = true).
      { unfold live, is_live in *. rewrite Hp, lookup_app_l in Hj by exact Hlt. exact Hj. }
      specialize (Hc j Hold). discriminate.
    + pose proof (live_lt _ _ Hj) as Hlt. rewrite Hp, length_app in Hlt.
      cbn in Hlt. lia.
Qed.

Lemma is_live_after_end (l : list pipeline) (i j : nat) :
  is_live (alter (fun _ => {| buffered := []; closed := true |}) i l) j = true ->
  is_live l j = true /\ i <> j.
Proof.
  unfold is_live. destruct (decide (i = j)) as [->|Hne].
  - rewrite list_lookup_alter_eq. destruct (l !! j); discriminate.
  - rewrite list_lookup_alter_ne by exact Hne. now split.
Qed.

Lemma stop_when_recording (w : world) :
  isRecording w = true -> stopIntervalRecording w = (Return tt, stopped w).
Proof.
  intros H. unfold stopIntervalRecording, stopped.
  unfold mbind, M_bind, bind, gets, console_log, emit, logged.
  rewrite H. cbn [negb modify snd fst]. fields.
  destruct (stopRecordingSubject w) as [s|].
  - unfold stopSubject_next, unsubscribe, end_pipeline, mbind, M_bind, bind, gets,
      console_log, emit, ended.
    destruct (live _ s); cbn [modify snd fst mret M_ret ret]; fields;
      destruct (recordingSubscription w) as [r|]; reflexivity.
  - cbn [mret M_ret ret]. fields.
    destruct (recordingSubscription w) as [r|]; reflexivity.
Qed.

(** What stop does while recording: it ends the subscription that the
    stop subject stops and the one in recordingSubscription, and clears
    the three variables; the results stay. *)
Lemma stop_recording (w : world) :
  isRecording w = true ->
  let w' := state_after (stopIntervalRecording w) in
  isRecording w' = false /\
  recordingSubscription w' = None /\
  stopRecordingSubject w' = None /\
  transcriptionResults w' = transcriptionResults w /\
  forall j, live w' j = true ->
            live w j = true /\ stopRecordingSubject w <> Some j /\
            recordingSubscription w <> Some j.
Proof.
  intros H. rewrite (stop_when_recording w H). unfold state_after, stopped, logged.
  cbn [snd]. fields.
  destruct (stopRecordingSubject w) as [s|] eqn:Est; fields; rewrite ?Est.
  - unfold live. fields.
    destruct (is_live (pipelines w) s) eqn:Es; unfold ended; fields;
      destruct (recordingSubscription w) as [r|] eqn:Er; fields; rewrite ?Er, ?Est;
      do 4 (split; [reflexivity|]); intros k Hk; unfold live in Hk |- *;
      fields_in Hk;
      repeat match type of Hk with
        | is_live (alter _ _ _) _ = true =>
            let Hn := fresh "Hn" in apply is_live_after_end in Hk as [Hk Hn]
        end;
      (split; [exact Hk|]); split; congruence.
  - unfold ended. destruct (recordingSubscription w) as [r|] eqn:Er; fields; rewrite ?Er, ?Est;
      do 4 (split; [reflexivity|]); intros k Hk; unfold live in Hk |- *;
      fields_in Hk;
      repeat match type of Hk with
        | is_live (alter _ _ _) _ = true =>
            let Hn := fresh "Hn" in apply is_live_after_end in Hk as [Hk Hn]
        end;
      (split; [exact Hk|]); split; congruence.
Qed.

Lemma consistent_stop (w : world) :
  consistent w -> consistent (state_after (stopIntervalRecording w)).
Proof.
  intros Hc. destruct (isRecording w) eqn:E.
  - destruct (stop_recording w E) as (Hr & _ & _ & _ & Hl).
    unfold consistent in *. rewrite E in Hc. rewrite Hr.
    destruct Hc as [_ Hc]. intros j Hj.
    destruct (Hl j Hj) as (Hj' & _ & Hn). now specialize (Hc j Hj').
  - now rewrite (stop_when_idle w E).
Qed.

Lemma consistent_react (ev : stimulus) (w : world) :
  consistent w -> consistent (state_after (react env ev w)).
Proof.
  intros Hc. destruct ev as [| |id c|id|id err]; cbn [react].
  - now apply consistent_start.
  - now apply consistent_stop.
  - unfold mbind, M_bind, bind, gets, state_after.
    destruct (live w id); cbn; [now apply consistent_with_buffer | exact Hc].
  - unfold mbind, M_bind, bind, gets, state_after.
    destruct (live w id); cbn [modify snd fst]; [|exact Hc].
    eapply consistent_session; [apply on_next_session|].
    now apply consistent_with_buffer.
  - unfold mbind, M_bind, bind, gets, state_after.
    destruct (live w id); cbn [fst snd]; [|exact Hc].
    unfold console_error, emit. cbn [modify fst snd].
    apply consistent_stop.
    eapply consistent_session; [|apply (consistent_end_pipeline w id Hc)].
    reflexivity.
Qed.

Lemma consistent_run (evs : list stimulus) (w : world) :
  consistent w -> consistent (run env evs w).
Proof.
  revert w; induction evs as [|ev evs IH]; intros w Hc; [exact Hc|].
  cbn [run]. apply IH, consistent_react, Hc.
Qed.

Lemma consistent_initial : consistent initial.
Proof. intros j Hj. discriminate. Qed.

(** At most one subscription of a consistent state is live. *)
Lemma at_most_one_live (l : list pipeline) :
  forall o : option nat,
    (forall j p, l !! j = Some p -> closed p = false -> o = Some j) ->
    (length (filter (fun p => closed p = false) l) <= 1)%nat.
Proof.
  induction l as [|p l IH]; intros o H; [cbn; lia|].
  rewrite filter_cons. destruct (decide (closed p = false)) as [Hp|Hp].
  - pose proof (H O p eq_refl Hp) as Ho.
    assert (Hnone : filter (fun p => closed p = false) l = []).
    { destruct (filter (fun p => closed p = false) l) as [|q qs] eqn:Ef; [reflexivity|].
      exfalso. assert (Hq : q ∈ filter (fun p => closed p = false) l)
        by (rewrite Ef; left).
      apply list_elem_of_filter in Hq as [Hq Hin].
      apply list_elem_of_lookup in Hin as [j Hj].
      specialize (H (S j) q Hj Hq). congruence. }
    rewrite Hnone. cbn. lia.
  - apply (IH (match o with Some (S j) => Some j | _ => None end)).
    intros j q Hj Hq. now rewrite (H (S j) q Hj Hq).
Qed.

Lemma consistent_at_most_one (w : world) :
  consistent w -> (length (active_sessions w) <= 1)%nat.
Proof.
  intros Hc. unfold active_sessions.
  apply (at_most_one_live (pipelines w)
           (if isRecording w then recordingSubscription w else None)).
  intros j p Hj Hp. unfold consistent in Hc.
  assert (Hl : live w j = true) by (unfold live, is_live; now rewrite Hj, Hp).
  destruct (isRecording w); [destruct Hc as [_ Hc]|]; exact (Hc j Hl).
Qed.

(** C7. In every reachable state, start while recording changes nothing
    at all, and neither does stop while not recording; and at most one
    subscription is live. *)
Theorem start_stop_idempotent (w : world) :
  reachable env w ->
  (isRecording w = true -> startIntervalRecording w = (Return tt, w)) /\
  (isRecording w = false -> stopIntervalRecording w = (Return tt, w)) /\
  (length (active_sessions w) <= 1)%nat.
Proof.
  intros [evs ->]. split; [apply start_when_recording|].
  split; [apply stop_when_idle|].
  apply consistent_at_most_one, consistent_run, consistent_initial.
Qed.

(** ** One segment *)

(** C1, as the code has it. When the persistence call for the encoded
    buffer of a window fails, the segment ends there: the failure is
    logged, the inference call is not made, nothing is appended to the
    results or shown, and the call returns null instead of throwing.
    Only the write of this window has to fail: of these bytes, under
    the name of this window. *)
Theorem persistence_failure_ends_segment (chunks : list chunk) (w : world)
    (wavData : bytes) (e : exn) :
  fst (encode_window env chunks w) = Return wavData ->
  writeFile env (filename_of env) wavData = Throw e ->
  let r := processAudioChunk env chunks w in
  fst r = Return None /\
  transcriptionResults (snd r) = transcriptionResults w /\
  resultsContainer (snd r) = resultsContainer w /\
  exists evs,
    trace (snd r) = trace w ++ evs /\
    last evs = Some (Console_error "Error processing audio chunk:" e) /\
    Call_writeFile (filename_of env) ∈ evs /\
    (Call_transcribeAudio ∉ evs) /\
    (forall result, Call_updateTranscriptionUI result ∉ evs).
Proof.
  cbn zeta. unfold encode_window, filename_of. run_segment.
  destruct (resampleAudio _ _ _ _) as [[resampled|e1] h2]; fields;
    cbn [fst snd]; [|discriminate].
  destruct (renderWavFile env _ _) as [encoded|e2]; cbn [fst snd]; [|discriminate].
  intros H Hw. injection H as ->. rewrite Hw. cbn [fst snd].
  do 3 (split; [reflexivity|]). close_trace.
  eexists. split; [reflexivity|]. split; [reflexivity|].
  split; [among|]. split; [not_among | intros result; not_among].
Qed.

(** A window that holds chunks is handed to processAudioChunk, which
    calls the resampler before anything can fail. *)
Lemma window_with_chunks_is_resampled (chunks : list chunk) (w : world) :
  chunks <> [] ->
  Call_resampleAudio ∈ trace (snd (on_next env chunks w)).
Proof.
  intros Hne. unfold on_next. destruct chunks as [|c chunks]; [congruence|].
  cbn [length Nat.eqb]. run_segment.
  destruct (resampleAudio _ _ _ _) as [[resampled|e1] h2]; fields;
    [destruct (renderWavFile env _ _) as [wavData|e2];
     [destruct (writeFile env _ _) as [[]|e3];
      [destruct (transcribeAudio env _) as [result|e4];
       [destruct (resultsContainer w)|]|]|]|];
    cbn [fst snd]; close_trace;
    rewrite elem_of_app; right; do 3 right; left.
Qed.

(** C3, as the code has it. A tick that finds no chunk in the buffer
    does not call processAudioChunk: nothing is resampled, encoded,
    written, sent or shown, and nothing is logged.  A tick that finds
    chunks hands them over, whatever their lengths, and the resampler is
    called. *)
Theorem empty_window_skipped (id : nat) (w : world) :
  live w id = true ->
  let r := react env (IntervalTick id) w in
  (buffer_of w id = [] ->
   fst r = Return tt /\
   trace (snd r) = trace w /\
   transcriptionResults (snd r) = transcriptionResults w /\
   resultsContainer (snd r) = resultsContainer w /\
   store (snd r) = store w) /\
  (buffer_of w id <> [] ->
   handed (trace (snd r)) = handed (trace w) ++ [buffer_of w id] /\
   Call_resampleAudio ∈ trace (snd r)).
Proof.
  intros Hl. cbn [react]. unfold mbind, M_bind, bind, gets.
  rewrite Hl. cbn [modify fst snd]. split.
  - intros Hb. rewrite Hb. cbn. repeat split; reflexivity.
  - intros Hb.
    destruct (on_next_session (buffer_of w id) (with_buffer id [] w)) as (_ & Ht).
    pose proof (window_with_chunks_is_resampled (buffer_of w id)
                  (with_buffer id [] w) Hb) as Hr.
    destruct (on_next env (buffer_of w id) (with_buffer id [] w)) as [[[]|e] w'];
      cbn [snd] in *; (split; [|exact Hr]); rewrite Ht;
      destruct (decide (buffer_of w id = [])); [contradiction | reflexivity
                                                | contradiction | reflexivity].
Qed.

(** ** The text shown for a result *)

Lemma join_shown_items (items : list json) :
  Array_join (Number_toString env) " " (map (item_text env) items)
    = String.concat " " (map (shown_item env) items).
Proof.
  unfold Array_join. rewrite List.map_map. f_equal. apply List.map_ext.
  intros item. unfold item_text, shown_item.
  destruct item as [| | | | |fields]; try reflexivity.
  destruct (lookup_field "text" fields) as [[| | | | |]|]; reflexivity.
Qed.

(** C9, as the code has it. When the results container exists, the
    element put in front shows, for a result.text that is truthy:
    result.text itself when it is a (non-empty) string; its items joined
    with single spaces when it is a non-empty array, a sub-record that
    has a text giving its text and any other item its String; and
    JSON.stringify(result.text) in every other case.  For a result.text
    that is falsy or absent it shows "(No transcription)", and for a
    result of which no text can be read the message of the error. *)
Theorem rendered_text (result : json) (children : list element) (w : world) :
  resultsContainer w = Some children ->
  exists shown,
    resultsContainer (state_after (updateTranscriptionUI env result w))
      = Some ({| timestamp := toLocaleTimeString env; text := shown |} :: children) /\
    (forall t,
       text_property result = Return (Some t) -> truthy t = true ->
       (forall s, t = JStr s -> shown = s /\ s <> EmptyString) /\
       (forall items,
          t = JArr items -> items <> [] ->
          shown = String.concat " " (map (shown_item env) items)) /\
       ((forall s, t <> JStr s) -> (forall items, t = JArr items -> items = []) ->
        shown = JSON_stringify env t)) /\
    (forall t,
       text_property result = Return (Some t) -> truthy t = false ->
       shown = "(No transcription)") /\
    (text_property result = Return None -> shown = "(No transcription)") /\
    (forall error,
       text_property result = Throw error ->
       shown = "Error parsing result: " +:+ message error).
Proof.
  intros Hc. exists (transcribedText env result). split.
  - unfold updateTranscriptionUI, state_after, console_log, emit,
      mbind, M_bind, bind, modify, gets. cbn [fst snd]. fields.
    rewrite Hc. reflexivity.
  - unfold transcribedText.
    split; [|split; [|split]].
    + intros t Ht Htruthy. rewrite Ht, Htruthy. split; [|split].
      * intros s ->. split; [reflexivity|]. cbn in Htruthy. now destruct s.
      * intros items -> Hne. destruct items as [|item items]; [congruence|].
        cbn [length Nat.ltb Nat.leb]. apply join_shown_items.
      * intros Hs Ha. destruct t as [| | |s|items|fields]; try reflexivity.
        -- now contradiction (Hs s).
        -- now rewrite (Ha items eq_refl).
    + intros t Ht Hfalsy. now rewrite Ht, Hfalsy.
    + intros Ht. now rewrite Ht.
    + intros error Ht. now rewrite Ht.
Qed.

End Facts.

End RendererFacts.

(* ================================================================== *)
(** * The properties on concrete runs *)
(* ================================================================== *)

Module Witnesses.
Import Number Effects Resampler Json Stt Renderer.
Import NumberFacts ResamplerFacts SttFacts RendererFacts Examples Notions.

Lemma resample_identity_witness :
  resampleAudio 0%nat (ofZ 44100) (ofZ 44100) two_samples = (Return 0%nat, two_samples).
Proof. apply (resample_identity 0%nat (ofZ 44100) two_samples). vm_compute. discriminate. Defined.

Lemma resample_length_witness :
  exists h', resampleAudio 0%nat (ofZ 24000) (ofZ 11025) silence480 = (Return 1%nat, h') /\
             length (array_at h' 1%nat) = 220%nat.
Proof.
  pose proof (resample_length 0%nat (ofZ 24000) (ofZ 11025) silence480) as H.
  assert (E : ToIndex (Math_round (div (ofZ (Z.of_nat (length (array_at silence480 0%nat))))
                                       (div (ofZ 24000) (ofZ 11025)))) = Some 220%nat)
    by (vm_compute; reflexivity).
  rewrite E in H. apply H. vm_compute. reflexivity.
Defined.

(** C4 fails as stated: 480 samples from 24000 Hz to 11025 Hz give 220
    samples, while round(480 * 11025 / 24000) = round(220.5) = 221, in
    exact arithmetic as well as in binary64. *)
Lemma resample_length_counterexample :
  positive_finite (ofZ 24000) /\ positive_finite (ofZ 11025) /\
  strict_eq (ofZ 24000) (ofZ 11025) = false /\
  length (array_at silence480 0%nat) = 480%nat /\
  (exists result h',
     resampleAudio 0%nat (ofZ 24000) (ofZ 11025) silence480 = (Return result, h') /\
     Z.of_nat (length (array_at h' result)) = 220 /\
     Z.of_nat (length (array_at h' result)) <> rounded_quotient 480 11025 24000) /\
  rounded_quotient 480 11025 24000 = 221 /\
  Math_round (div (mul (ofZ 480) (ofZ 11025)) (ofZ 24000)) = Int 221.
Proof.
  split; [exact I|]. split; [exact I|]. split; [vm_compute; reflexivity|].
  split; [vm_compute; reflexivity|]. split.
  - exists 1%nat, (snd (resampleAudio 0%nat (ofZ 24000) (ofZ 11025) silence480)).
    split; [vm_compute; reflexivity|]. split; [vm_compute; reflexivity|].
    vm_compute. discriminate.
  - split; vm_compute; reflexivity.
Qed.

Lemma resample_reads_in_bounds_and_clamps_witness :
  let h' := snd (resampleAudio 0%nat (ofZ 8000) (ofZ 44100) two_samples) in
  (exists rs, reads h' = reads two_samples ++ rs /\
              Forall (in_bounds 0%nat [half; quarter]) rs) /\
  array_at h' 1%nat !! 10%nat = Some quarter.
Proof.
  intros h'.
  destruct (resample_reads_in_bounds_and_clamps 0%nat [half; quarter]
              (ofZ 8000) (ofZ 44100) two_samples h' 1%nat) as [Hreads Hclamp].
  - reflexivity.
  - discriminate.
  - repeat constructor; vm_compute; reflexivity.
  - exact I.
  - exact I.
  - vm_compute. reflexivity.
  - split; [exact Hreads|].
    apply (Hclamp ltac:(vm_compute; reflexivity) 10%nat).
    + vm_compute. lia.
    + vm_compute. reflexivity.
Defined.

Lemma transcribeAudio_duration_witness :
  let r := Stt.transcribeAudio clock answered decoded parsed [] no_options idle in
  exists fields,
    fst r = Return (JObj fields) /\
    lookup_field "duration" fields = Some (JNum (ofZ 250)) /\
    steps (snd r) = [Clock_read 0;
                     Request_sent (createClient no_options) (request [] no_options);
                     Clock_read 1;
                     Decoded [Byte.x7b; Byte.x7d];
                     Parsed "[payload]"].
Proof.
  intros r.
  destruct (transcribeAudio_duration clock answered decoded parsed [] no_options idle
              (snd r)
              (JObj (set_field "duration" (JNum (ofZ 250)) (spread payload []))))
    as (fields & body & jsonString & Hf & _ & Hd & _ & Hs & Hb & Hsteps & _).
  - vm_compute. reflexivity.
  - exists fields. split; [|split].
    + rewrite <- Hf. vm_compute. reflexivity.
    + rewrite Hd. vm_compute. reflexivity.
    + rewrite Hsteps. injection Hs as <-. injection Hb as <-. reflexivity.
Defined.

(** C1 fails as stated: the disk is full and the service would answer,
    yet after the failed write the inference call is not made, nothing
    is appended or shown, and the call returns null. *)
Lemma persistence_failure_counterexample :
  let r := processAudioChunk disk_full six_samples initial in
  (forall filename data, writeFile disk_full filename data = Throw (Error "ENOSPC")) /\
  (forall data, transcribeAudio disk_full data = Return hello) /\
  Call_writeFile "chunk-2024-01-02T03-04-05-678Z.wav" ∈ trace (snd r) /\
  (Call_transcribeAudio ∉ trace (snd r)) /\
  transcriptionResults (snd r) = [] /\
  resultsContainer (snd r) = Some [] /\
  fst r = Return None.
Proof.
  cbn zeta. split; [reflexivity|]. split; [reflexivity|].
  split; [vm_compute; among|].
  split; [vm_compute; not_among|].
  repeat split; vm_compute; reflexivity.
Qed.

Lemma persistence_failure_ends_segment_witness :
  let r := processAudioChunk picky six_samples initial in
  writeFile picky "chunk-other.wav" [Byte.x00; Byte.x00] = Return tt /\
  fst r = Return None /\
  transcriptionResults (snd r) = [] /\
  resultsContainer (snd r) = Some [] /\
  exists evs,
    trace (snd r) = evs /\
    last evs = Some (Console_error "Error processing audio chunk:" (Error "EACCES")) /\
    Call_writeFile "chunk-2024-01-02T03-04-05-678Z.wav" ∈ evs /\
    (Call_transcribeAudio ∉ evs) /\
    (forall result, Call_updateTranscriptionUI result ∉ evs).
Proof.
  split; [reflexivity|].
  apply (persistence_failure_ends_segment picky six_samples initial
           [Byte.x00; Byte.x00] (Error "EACCES")).
  - vm_compute. reflexivity.
  - reflexivity.
Defined.

(** C3 fails as stated: a window of two zero-length chunks concatenates
    to no sample at all, and is still handed over, resampled and given
    to the encoder. *)
Lemma zero_length_chunks_counterexample :
  let w := run all_well [ClickStart; SourceChunk 0 []; SourceChunk 0 []] initial in
  let r := react all_well (IntervalTick 0) w in
  live w 0 = true /\
  buffer_of w 0 = [[]; []] /\
  concat (buffer_of w 0) = [] /\
  handed (trace (snd r)) = [[[]; []]] /\
  Call_resampleAudio ∈ trace (snd r) /\
  Call_renderWavFile ∈ trace (snd r).
Proof.
  cbn zeta. do 4 (split; [vm_compute; reflexivity|]).
  split; vm_compute; among.
Qed.

Lemma empty_window_skipped_witness :
  let w := run all_well [ClickStart] initial in
  let r := react all_well (IntervalTick 0) w in
  fst r = Return tt /\
  trace (snd r) = trace w /\
  transcriptionResults (snd r) = transcriptionResults w /\
  resultsContainer (snd r) = resultsContainer w /\
  store (snd r) = store w.
Proof.
  exact (proj1 (empty_window_skipped all_well 0 (run all_well [ClickStart] initial)
                  eq_refl) eq_refl).
Defined.

Lemma no_double_counting_witness :
  let s := [Arrives [half]; Ticks; Arrives []; Arrives [quarter; half]; Ticks;
            Ticks; Arrives [half; half; half]; Ticks] in
  let started := state_after (startIntervalRecording initial) in
  let w' := run all_well (stimuli 0 s) started in
  exists windows,
    handed (trace w') = windows /\
    concat windows = [[half]; []; [quarter; half]; [half; half; half]].
Proof.
  intros s started w'.
  destruct (no_double_counting all_well initial s eq_refl)
    as (windows & Hw & _ & Hc).
  exists windows. split; [exact Hw | exact (Hc eq_refl)].
Defined.

Lemma start_stop_idempotent_witness :
  let w := run all_well [ClickStart; SourceChunk 0 [half]; ClickStart] initial in
  (isRecording w = true -> startIntervalRecording w = (Return tt, w)) /\
  (isRecording w = false -> stopIntervalRecording w = (Return tt, w)) /\
  (length (active_sessions w) <= 1)%nat.
Proof.
  apply (start_stop_idempotent all_well).
  exists [ClickStart; SourceChunk 0 [half]; ClickStart]. reflexivity.
Defined.

(** C9 fails as stated: a result whose text is the empty string is shown
    as "(No transcription)", not as its text. *)
Lemma rendered_text_counterexample :
  let result := JObj [("text", JStr EmptyString)] in
  text_property result = Return (Some (JStr EmptyString)) /\
  resultsContainer (state_after (updateTranscriptionUI all_well result initial))
    = Some [{| timestamp := "03:04:05"; text := "(No transcription)" |}] /\
  "(No transcription)" <> EmptyString.
Proof. cbn zeta. repeat split; try reflexivity. discriminate. Qed.

Lemma rendered_text_witness :
  let result := JObj [("text", JArr [JObj [("text", JStr "good")]; JStr "morning"])] in
  exists shown,
    resultsContainer (state_after (updateTranscriptionUI all_well result initial))
      = Some [{| timestamp := "03:04:05"; text := shown |}] /\
    shown = "good morning".
Proof.
  intros result.
  destruct (rendered_text all_well result [] initial eq_refl)
    as (shown & Hc & Htruthy & _).
  exists shown. split; [exact Hc|].
  destruct (Htruthy (JArr [JObj [("text", JStr "good")]; JStr "morning"])
              eq_refl eq_refl) as (_ & Harr & _).
  apply (Harr [JObj [("text", JStr "good")]; JStr "morning"]);
    [reflexivity | discriminate].
Defined.

End Witnesses.

(* ================================================================== *)
(** * Further facts about the resampler *)
(* ================================================================== *)

Module ResamplerMore.
Import Number Effects Resampler NumberFacts EffectsFacts ResamplerFacts.

(** For rates that differ, a call allocates one array and returns it, or
    throws and leaves the store alone. *)
Lemma resample_outcome (audioData : ref) (r1 r2 : number) (h : heap) :
  strict_eq r1 r2 = false ->
  (exists out rs,
     resampleAudio audioData r1 r2 h
       = (Return (length (arrays h)), Heap (arrays h ++ [out]) rs)) \/
  resampleAudio audioData r1 r2 h
    = (Throw (RangeError "Invalid typed array length"), h).
Proof.
  intros E. rewrite (resampleAudio_eq _ _ _ _ E). cbv zeta. unfold new_Float32Array.
  destruct (ToIndex _) as [k|] eqn:Ek; [|right; reflexivity].
  left. rewrite (ToIndex_iterations _ _ Ek).
  destruct (loop_fills audioData (div r1 r2) (arrays h) k
              (replicate k (S754_zero false)) (reads h))
    as (out' & rs' & Hloop & _).
  rewrite Hloop. now exists out', rs'.
Qed.

(** X1. For rates that differ, the result is a new array: the store
    has one array more, every array it had, the input among them, is as
    it was, and the reference returned is not the one that was given. *)
Theorem resample_leaves_input (audioData result : ref) (r1 r2 : number) (h h' : heap) :
  strict_eq r1 r2 = false ->
  resampleAudio audioData r1 r2 h = (Return result, h') ->
  result = length (arrays h) /\
  length (arrays h') = S (length (arrays h)) /\
  (forall a x, arrays h !! a = Some x -> arrays h' !! a = Some x) /\
  (forall x, arrays h !! audioData = Some x ->
             result <> audioData /\ array_at h' audioData = x).
Proof.
  intros E H. destruct (resample_outcome audioData r1 r2 h E) as [(out & rs & Ho)|Ho];
    rewrite Ho in H; [|discriminate].
  injection H as <- <-. cbn [arrays]. split; [reflexivity|]. split.
  - rewrite length_app. cbn. lia.
  - split.
    + intros a x Ha. now apply lookup_app_l_Some.
    + intros x Ha. split.
      * apply lookup_lt_Some in Ha. lia.
      * unfold array_at. cbn [arrays]. now rewrite (lookup_app_l_Some _ _ _ _ Ha).
Qed.

(** X2. An input without samples never throws and is never read: for
    any two rates that differ, the result is a new array of no sample. *)
Theorem resample_empty_input (audioData : ref) (r1 r2 : number) (h : heap) :
  strict_eq r1 r2 = false ->
  array_at h audioData = [] ->
  resampleAudio audioData r1 r2 h
    = (Return (length (arrays h)), Heap (arrays h ++ [[]]) (reads h)).
Proof.
  intros E Hx. rewrite (resampleAudio_eq _ _ _ _ E). cbv zeta. rewrite Hx.
  generalize (div r1 r2). intros ratio.
  destruct ratio as [s|s| |s m e]; reflexivity.
Qed.

(** At the rates of the script, one or two samples are too few to give
    a sample of the result. *)
Lemma resample_short (audioData : ref) (h : heap) :
  (length (array_at h audioData) <= 2)%nat ->
  resampleAudio audioData (ofZ 44100) (ofZ 8000) h
    = (Return (length (arrays h)), Heap (arrays h ++ [[]]) (reads h)).
Proof.
  intros Hlen.
  rewrite (resampleAudio_eq _ _ _ _ (eq_refl : strict_eq (ofZ 44100) (ofZ 8000) = false)).
  cbv zeta.
  destruct (length (array_at h audioData)) as [|[|[|n]]]; [| | |lia].
  - replace (Math_round (div (ofZ (Z.of_nat 0)) (div (ofZ 44100) (ofZ 8000))))
      with (Int 0) by (vm_compute; reflexivity). reflexivity.
  - replace (Math_round (div (ofZ (Z.of_nat 1)) (div (ofZ 44100) (ofZ 8000))))
      with (Int 0) by (vm_compute; reflexivity). reflexivity.
  - replace (Math_round (div (ofZ (Z.of_nat 2)) (div (ofZ 44100) (ofZ 8000))))
      with (Int 0) by (vm_compute; reflexivity). reflexivity.
Qed.

End ResamplerMore.

(* ================================================================== *)
(** * Further facts about the transcription client *)
(* ================================================================== *)

Module SttMore.
Import Number Effects Json Stt SttFacts Notions.

(** ** Objects *)

Lemma lookup_set_field_other (k k' : string) (v : json) (o : list (string * json)) :
  k <> k' -> lookup_field k (set_field k' v o) = lookup_field k o.
Proof.
  intros Hne. induction o as [|[k0 v0] o IH]; cbn [set_field lookup_field].
  - destruct (String.eqb_spec k' k); [congruence | reflexivity].
  - destruct (String.eqb_spec k0 k') as [->|H0]; cbn [lookup_field].
    + destruct (String.eqb_spec k' k); [congruence | reflexivity].
    + destruct (String.eqb k0 k); [reflexivity | exact IH].
Qed.

Lemma set_field_fresh (k : string) (v : json) (o : list (string * json)) :
  k ∉ o.*1 -> set_field k v o = o ++ [(k, v)].
Proof.
  induction o as [|[k0 v0] o IH]; intros H; [reflexivity|].
  cbn [set_field]. cbn in H. apply not_elem_of_cons in H as [H1 H2].
  destruct (String.eqb_spec k0 k); [congruence|]. cbn. now rewrite IH.
Qed.

Lemma assignments_fresh (props : list (string * json)) :
  forall target,
  NoDup (target.*1 ++ props.*1) ->
  foldl (fun acc kv => set_field kv.1 kv.2 acc) target props = target ++ props.
Proof.
  induction props as [|[k v] props IH]; intros target H; [now rewrite app_nil_r|].
  cbn [foldl fst snd]. rewrite set_field_fresh.
  - rewrite IH; [now rewrite <- app_assoc|].
    rewrite fmap_app. cbn. now rewrite <- app_assoc.
  - apply NoDup_app in H as (_ & H & _). intros Hin. apply (H k Hin). left.
Qed.

(** The spread of an object that has no property twice is a copy of it. *)
Lemma spread_object (props : list (string * json)) :
  NoDup props.*1 -> spread (JObj props) [] = props.
Proof. intros H. unfold spread. cbn [own_properties]. now rewrite assignments_fresh. Qed.

Lemma lookup_assignments_none (k : string) (props : list (string * json)) :
  forall target,
  lookup_field k target = None -> lookup_field k props = None ->
  lookup_field k (foldl (fun acc kv => set_field kv.1 kv.2 acc) target props) = None.
Proof.
  induction props as [|[k0 v0] props IH]; intros target Ht Hp; [exact Ht|].
  cbn [foldl fst snd]. cbn [lookup_field] in Hp.
  destruct (String.eqb_spec k0 k) as [->|Hne]; [discriminate|].
  apply IH; [|exact Hp]. rewrite lookup_set_field_other by congruence. exact Ht.
Qed.

Lemma or_default_without_empty (o : option string) (d : string) :
  or_default (without_empty o) d = or_default o d.
Proof.
  destruct o as [s|]; [|reflexivity]. cbn.
  destruct (String.eqb s EmptyString) eqn:E; cbn; [reflexivity | now rewrite E].
Qed.

Ltac run_call :=
  unfold Stt.transcribeAudio, Stt.nodeAPI_transcribeAudio, Stt.measured,
    mbind, M_bind, bind, try_catch, Date_now, console_log, console_error,
    await, recorded, modify, throw, mret, M_ret, ret;
  cbn [clock_reads console steps fst snd].

Section Facts.

Variable Date_now_at : nat -> number.
Variable send : client -> InvokeEndpointCommand -> outcome (option bytes).
Variable decode : bytes -> outcome string.
Variable JSON_parse : string -> outcome json.

Let transcribeAudio := Stt.transcribeAudio Date_now_at send decode JSON_parse.
Let nodeAPI_transcribeAudio := Stt.nodeAPI_transcribeAudio Date_now_at send decode JSON_parse.
Let measured := Stt.measured Date_now_at.

(** What a call returns when the payload parses. *)
Lemma transcribeAudio_answer (audioData : bytes) (options : TranscriptionOptions)
    (p : process) (body : bytes) (s : string) (v : json) :
  send (createClient options) (request audioData options) = Return (Some body) ->
  decode body = Return s ->
  JSON_parse s = Return v ->
  fst (transcribeAudio audioData options p)
    = Return (JObj (set_field "duration" (JNum (measured p)) (spread v []))).
Proof.
  intros Hs Hd Hp. unfold request in Hs. unfold transcribeAudio, measured. run_call.
  rewrite Hs. cbn [fst snd]. rewrite Hd. cbn [fst snd]. rewrite Hp. reflexivity.
Qed.

(** X3. What the service answered is returned with it: the record has
    the properties of the payload, in their order and with their values,
    the duration apart, which is assigned in place when the payload has
    one and added last when it has none. *)
Theorem payload_properties_kept (audioData : bytes) (options : TranscriptionOptions)
    (p : process) (body : bytes) (s : string) (props : list (string * json)) :
  send (createClient options) (request audioData options) = Return (Some body) ->
  decode body = Return s ->
  JSON_parse s = Return (JObj props) ->
  NoDup props.*1 ->
  exists fields,
    fst (transcribeAudio audioData options p) = Return (JObj fields) /\
    (forall k, k <> "duration" -> lookup_field k fields = lookup_field k props) /\
    fields.*1 = if decide ("duration" ∈ props.*1) then props.*1
                else props.*1 ++ ["duration"].
Proof.
  intros Hs Hd Hp Hn. eexists. split; [|split].
  - apply (transcribeAudio_answer _ _ _ _ _ _ Hs Hd Hp).
  - intros k Hk. rewrite (spread_object props Hn). now apply lookup_set_field_other.
  - rewrite (spread_object props Hn). apply set_field_names.
Qed.

(** X4. The error a call throws is the one that made it fail, thrown
    again as it came: the error of the transport, of the decoder or of
    the parser, or the one that reports a response without a body.  It
    is logged before it is thrown, and that is the last line the call
    writes. *)
Theorem transcribeAudio_rethrows (audioData : bytes) (options : TranscriptionOptions)
    (p : process) (e : exn) :
  fst (transcribeAudio audioData options p) = Throw e ->
  last (console (snd (transcribeAudio audioData options p)))
    = Some (LogError "Transcription failed after ${endTime - startTime} ms:" e) /\
  (send (createClient options) (request audioData options) = Throw e \/
   (send (createClient options) (request audioData options) = Return None /\
    e = Error "No response body received from SageMaker endpoint") \/
   exists body,
     send (createClient options) (request audioData options) = Return (Some body) /\
     (decode body = Throw e \/
      exists s, decode body = Return s /\ JSON_parse s = Throw e)).
Proof.
  unfold transcribeAudio, request. run_call.
  destruct (send _ _) as [[body|]|e0]; cbn [fst snd].
  - destruct (decode body) as [s|e1] eqn:Ed; cbn [fst snd].
    + destruct (JSON_parse s) as [v|e2] eqn:Ep; cbn [fst snd console];
        intros H; [discriminate|]. injection H as ->.
      split; [apply last_snoc|]. right. right. exists body. split; [reflexivity|].
      right. now exists s.
    + intros H. injection H as ->. cbn [console].
      split; [apply last_snoc|]. right. right. exists body. split; [reflexivity|].
      now left.
  - intros H. injection H as <-. cbn [console].
    split; [apply last_snoc|]. right. left. now split.
  - intros H. injection H as ->. cbn [console].
    split; [apply last_snoc|]. now left.
Qed.

(** X5. An option that is the empty string counts as one that is not
    given: the call is the same with the default in its place. *)
Theorem empty_option_is_default (audioData : bytes) (options : TranscriptionOptions)
    (p : process) :
  transcribeAudio audioData (without_empty_options options) p
    = transcribeAudio audioData options p /\
  createClient (without_empty_options options) = createClient options /\
  request audioData (without_empty_options options) = request audioData options.
Proof.
  assert (Hc : createClient (without_empty_options options) = createClient options).
  { unfold createClient, without_empty_options. cbn [region profile].
    now rewrite !or_default_without_empty. }
  assert (Hr : request audioData (without_empty_options options)
               = request audioData options).
  { unfold request, without_empty_options. cbn [endpointName].
    now rewrite or_default_without_empty. }
  split; [|now split].
  unfold transcribeAudio, Stt.transcribeAudio. cbv zeta.
  fold (request audioData (without_empty_options options)).
  fold (request audioData options). now rewrite Hc, Hr.
Qed.

(** X6. nodeAPI.transcribeAudio asks for the default endpoint with the
    default region and profile, and passes on what transcribeAudio
    gives: the same record, or the same error, which it logs once
    more. *)
Theorem nodeAPI_transcribeAudio_passes_on (audioData : bytes) (p : process) :
  let inner := transcribeAudio audioData no_options p in
  let outer := nodeAPI_transcribeAudio audioData p in
  fst outer = fst inner /\
  clock_reads (snd outer) = clock_reads (snd inner) /\
  match fst inner with
  | Return _ => console (snd outer) = console (snd inner)
  | Throw e =>
      console (snd outer) = console (snd inner) ++ [LogError "Transcription error:" e]
  end.
Proof.
  cbv zeta. unfold nodeAPI_transcribeAudio, Stt.nodeAPI_transcribeAudio.
  fold transcribeAudio.
  unfold mbind, M_bind, bind, try_catch, console_error, modify, throw, mret, M_ret, ret.
  destruct (transcribeAudio audioData no_options p) as [[r|e] p']; cbn; auto.
Qed.

End Facts.

End SttMore.

(* ================================================================== *)
(** * Further facts about the renderer script *)
(* ================================================================== *)

Module RendererMore.
Import Number Effects Resampler Json Renderer EffectsFacts ResamplerFacts RendererFacts Notions.
Import ResamplerMore.

Section Facts.

Variable env : collaborators.

(** ** What a segment does *)

(** The three ways processAudioChunk can end. *)
Lemma processAudioChunk_outcome (chunks : list chunk) (w : world) :
  let r := processAudioChunk env chunks w in
  exists evs, trace (snd r) = trace w ++ evs /\
  match fst r with
  | Return (Some result) =>
      transcriptionResults (snd r) = transcriptionResults w ++ [result] /\
      resultsContainer (snd r) = cons (shown_element env result) <$> resultsContainer w /\
      calls evs = [Call_resampleAudio; Call_renderWavFile;
                   Call_writeFile (filename_of env); Call_transcribeAudio;
                   Call_updateTranscriptionUI result] /\
      exists wavData, writeFile env (filename_of env) wavData = Return tt /\
                      transcribeAudio env wavData = Return result
  | Return None =>
      transcriptionResults (snd r) = transcriptionResults w /\
      resultsContainer (snd r) = resultsContainer w /\
      (forall result, Call_updateTranscriptionUI result ∉ evs) /\
      exists err, last evs = Some (Console_error "Error processing audio chunk:" err)
  | Throw _ => False
  end.
Proof.
  cbn zeta. run_segment. unfold filename_of.
  destruct (resampleAudio _ _ _ _) as [[resampled|e1] h2]; fields;
    [destruct (renderWavFile env _ _) as [wavData|e2];
     [destruct (writeFile env _ wavData) as [[]|e3] eqn:Ew;
      [destruct (transcribeAudio env wavData) as [result|e4] eqn:Et;
       [destruct (resultsContainer w) as [children|] eqn:Ec|]|]|]|];
    cbn [fst snd]; close_trace; rewrite ?Ec; eexists; (split; [reflexivity|]).
  1,2: split; [reflexivity|]; split; [reflexivity|]; split; [reflexivity|];
       exists wavData; split; assumption.
  all: split; [reflexivity|]; split; [reflexivity|];
       split; [intros result; not_among|]; eexists; reflexivity.
Qed.

(** X7. processAudioChunk never throws.  When it returns null, the
    result list and the display are as they were, nothing was given to
    updateTranscriptionUI, and the last thing it did was to log the
    error. *)
Theorem segment_never_throws (chunks : list chunk) (w : world) :
  let r := processAudioChunk env chunks w in
  (exists result, fst r = Return (Some result)) \/
  (fst r = Return None /\
   transcriptionResults (snd r) = transcriptionResults w /\
   resultsContainer (snd r) = resultsContainer w /\
   exists evs err,
     trace (snd r) = trace w ++ evs /\
     (forall result, Call_updateTranscriptionUI result ∉ evs) /\
     last evs = Some (Console_error "Error processing audio chunk:" err)).
Proof.
  cbn zeta. destruct (processAudioChunk_outcome chunks w) as (evs & Ht & H).
  destruct (fst (processAudioChunk env chunks w)) as [[result|]|e]; [| |contradiction].
  - left. now exists result.
  - right. destruct H as (Hr & Hc & Hn & err & Hl).
    repeat split; try assumption. now exists evs, err.
Qed.

(** X8. When processAudioChunk returns a result, it has called, in this
    order, the resampler, the encoder, writeFile, transcribeAudio and
    updateTranscriptionUI; the result is the answer of transcribeAudio
    to the bytes that were written; it is now the last of the result
    list, and its element is the first child of the results container. *)
Theorem segment_success (chunks : list chunk) (w : world) (result : json) :
  fst (processAudioChunk env chunks w) = Return (Some result) ->
  let w' := snd (processAudioChunk env chunks w) in
  transcriptionResults w' = transcriptionResults w ++ [result] /\
  resultsContainer w' = cons (shown_element env result) <$> resultsContainer w /\
  (exists evs, trace w' = trace w ++ evs /\
               calls evs = [Call_resampleAudio; Call_renderWavFile;
                            Call_writeFile (filename_of env); Call_transcribeAudio;
                            Call_updateTranscriptionUI result]) /\
  exists wavData, writeFile env (filename_of env) wavData = Return tt /\
                  transcribeAudio env wavData = Return result.
Proof.
  intros Hr. cbn zeta.
  destruct (processAudioChunk_outcome chunks w) as (evs & Ht & H).
  rewrite Hr in H. destruct H as (H1 & H2 & H3 & H4).
  repeat split; try assumption. now exists evs.
Qed.

(** ** What the handlers keep *)

(** The next callback either leaves the results and the display alone or
    adds one result to both. *)
Lemma on_next_returns (chunks : list chunk) (w : world) :
  fst (on_next env chunks w) = Return tt /\
  one_more_or_none env w (snd (on_next env chunks w)).
Proof.
  unfold on_next. destruct chunks as [|c chunks]; [split; [reflexivity | now left]|].
  cbn [length Nat.eqb]. unfold mbind, M_bind, bind, console_log, emit, modify.
  set (w1 := with_trace _ w).
  destruct (processAudioChunk_outcome (c :: chunks) w1) as (evs & _ & H).
  destruct (processAudioChunk env (c :: chunks) w1) as [[[result|]|e] w2];
    cbn [fst snd] in *; [| |contradiction]; (split; [reflexivity|]).
  - right. exists result. now destruct H as (H1 & H2 & _).
  - left. now destruct H as (H1 & H2 & _).
Qed.

(** What stop keeps, whether it was recording or not. *)
Lemma stop_frame (w : world) :
  let w' := state_after (stopIntervalRecording w) in
  fst (stopIntervalRecording w) = Return tt /\
  transcriptionResults w' = transcriptionResults w /\
  resultsContainer w' = resultsContainer w /\
  store w' = store w /\
  handed (trace w') = handed (trace w).
Proof.
  destruct (isRecording w) eqn:E.
  - rewrite (stop_when_recording w E). unfold state_after, stopped, logged, ended.
    cbn [fst snd]. fields.
    destruct (stopRecordingSubject w) as [s|]; fields;
      [unfold live; fields; destruct (is_live (pipelines w) s); fields|];
      destruct (recordingSubscription w) as [r|]; fields;
      rewrite ?handed_app; cbn [handed omap]; rewrite ?app_nil_r;
      repeat split; reflexivity.
  - rewrite (stop_when_idle w E). cbn. repeat split; reflexivity.
Qed.

(** What start does to the display when nothing is recording. *)
Lemma start_display (w : world) :
  isRecording w = false ->
  fst (startIntervalRecording w) = Return tt /\
  resultsContainer (state_after (startIntervalRecording w))
    = (fun _ => []) <$> resultsContainer w.
Proof.
  intros H. unfold startIntervalRecording, state_after.
  unfold mbind, M_bind, bind, gets, modify, console_log, emit, subscribe.
  rewrite H. cbn. destruct (resultsContainer w) eqn:Ec; cbn; rewrite ?Ec;
    split; reflexivity.
Qed.

(** X9. No click, chunk, tick or source error makes a handler of the
    script throw. *)
Theorem react_never_throws (ev : stimulus) (w : world) :
  fst (react env ev w) = Return tt.
Proof.
  destruct ev as [| |id c|id|id err]; cbn [react].
  - destruct (isRecording w) eqn:E.
    + now rewrite (start_when_recording w E).
    + apply (start_display w E).
  - apply stop_frame.
  - unfold mbind, M_bind, bind, gets. destruct (live w id); reflexivity.
  - unfold mbind, M_bind, bind, gets. destruct (live w id); [|reflexivity].
    cbn [modify fst snd]. apply on_next_returns.
  - unfold mbind, M_bind, bind, gets. destruct (live w id); [|reflexivity].
    cbn [end_pipeline console_error emit modify fst snd]. apply stop_frame.
Qed.

(** X10. A tick leaves the session as it is, whatever becomes of the
    segment it hands over: the page records as before, the same
    subscriptions are live, and the buffer of the one that ticked is
    empty. *)
Theorem tick_keeps_session (id : nat) (w : world) :
  let w' := state_after (react env (IntervalTick id) w) in
  isRecording w' = isRecording w /\
  recordingSubscription w' = recordingSubscription w /\
  (forall j, live w' j = live w j) /\
  (live w id = true -> buffer_of w' id = []).
Proof.
  cbn zeta. cbn [react]. unfold mbind, M_bind, bind, gets, state_after.
  destruct (live w id) eqn:El; cbn [modify fst snd];
    [|split; [reflexivity|]; split; [reflexivity|]; split; [reflexivity | discriminate]].
  destruct (on_next_session env (buffer_of w id) (with_buffer id [] w)) as (Hs & _).
  pose proof (fun j => session_live _ _ j Hs) as Hl.
  pose proof (session_buffer_of _ _ id Hs) as Hb.
  unfold session_of in Hs. injection Hs as H1 H2 _ _.
  split; [exact H1|]. split; [exact H2|]. split.
  - intros j. rewrite Hl. apply live_with_buffer.
  - intros _. rewrite Hb. now apply buffer_of_with_buffer.
Qed.

(** X11. Stop leaves the result list and the display as they are; it is
    the next start that clears them. *)
Theorem stop_keeps_results (w : world) :
  transcriptionResults (state_after (stopIntervalRecording w)) = transcriptionResults w /\
  resultsContainer (state_after (stopIntervalRecording w)) = resultsContainer w.
Proof. destruct (stop_frame w) as (_ & H1 & H2 & _). now split. Qed.

(** ** Invariants of the page *)

Lemma mirrors_one_more (w w' : world) :
  mirrors env w -> one_more_or_none env w w' -> mirrors env w'.
Proof.
  unfold mirrors. intros Hm [[Hr Hc]|(result & Hr & Hc)]; rewrite Hr, Hc, Hm.
  - reflexivity.
  - rewrite List.map_app. cbn [List.map]. rewrite reverse_snoc. reflexivity.
Qed.

Lemma mirrors_same (w w' : world) :
  transcriptionResults w' = transcriptionResults w ->
  resultsContainer w' = resultsContainer w ->
  mirrors env w -> mirrors env w'.
Proof. unfold mirrors. now intros -> ->. Qed.

Lemma mirrors_react (ev : stimulus) (w : world) :
  mirrors env w -> mirrors env (state_after (react env ev w)).
Proof.
  intros Hm. destruct ev as [| |id c|id|id err]; cbn [react].
  - destruct (isRecording w) eqn:E; [now rewrite (start_when_recording w E)|].
    destruct (start_fresh w E) as (_ & _ & _ & _ & Hr & _).
    destruct (start_display w E) as (_ & Hc).
    unfold mirrors in *. rewrite Hr, Hc, Hm. reflexivity.
  - destruct (stop_frame w) as (_ & H1 & H2 & _). now apply (mirrors_same w).
  - unfold mbind, M_bind, bind, gets, state_after.
    destruct (live w id); cbn [modify fst snd]; [|exact Hm].
    now apply (mirrors_same w).
  - unfold mbind, M_bind, bind, gets, state_after.
    destruct (live w id); cbn [modify fst snd]; [|exact Hm].
    apply (mirrors_one_more (with_buffer id [] w)); [|apply on_next_returns].
    now apply (mirrors_same w).
  - unfold mbind, M_bind, bind, gets, state_after.
    destruct (live w id); cbn [fst snd]; [|exact Hm].
    cbn [end_pipeline console_error emit modify fst snd].
    match goal with |- mirrors env (snd (stopIntervalRecording ?u)) =>
      destruct (stop_frame u) as (_ & H1 & H2 & _);
      apply (mirrors_same u); [exact H1 | exact H2 |] end.
    now apply (mirrors_same w).
Qed.

Lemma mirrors_run (evs : list stimulus) (w : world) :
  mirrors env w -> mirrors env (run env evs w).
Proof.
  revert w. induction evs as [|ev evs IH]; intros w H; [exact H|].
  cbn [run]. apply IH, mirrors_react, H.
Qed.

(** X12. In every reachable state the results container shows exactly
    the results of the session: one element for each result, the latest
    result first. *)
Theorem display_mirrors_results (w : world) :
  reachable env w -> mirrors env w.
Proof.
  intros [evs ->]. now apply mirrors_run.
Qed.

Lemma windows_react (ev : stimulus) (w : world) :
  Forall (fun window => window <> []) (handed (trace w)) ->
  Forall (fun window => window <> []) (handed (trace (state_after (react env ev w)))).
Proof.
  intros Hf. destruct ev as [| |id c|id|id err]; cbn [react].
  - destruct (isRecording w) eqn:E; [now rewrite (start_when_recording w E)|].
    destruct (start_fresh w E) as (_ & _ & _ & _ & _ & Ht). now rewrite Ht.
  - destruct (stop_frame w) as (_ & _ & _ & _ & Ht). now rewrite Ht.
  - unfold mbind, M_bind, bind, gets, state_after.
    destruct (live w id); cbn [modify fst snd]; exact Hf.
  - unfold mbind, M_bind, bind, gets, state_after.
    destruct (live w id); cbn [modify fst snd]; [|exact Hf].
    destruct (on_next_session env (buffer_of w id) (with_buffer id [] w)) as (_ & Ht).
    rewrite Ht. apply Forall_app. split; [exact Hf|].
    destruct (decide (buffer_of w id = [])); [constructor|]. now repeat constructor.
  - unfold mbind, M_bind, bind, gets, state_after.
    destruct (live w id); cbn [fst snd]; [|exact Hf].
    cbn [end_pipeline console_error emit modify fst snd].
    match goal with |- Forall _ (handed (trace (snd (stopIntervalRecording ?u)))) =>
      destruct (stop_frame u) as (_ & _ & _ & _ & Ht);
      unfold state_after in Ht; rewrite Ht end.
    fields. rewrite handed_app. cbn. now rewrite app_nil_r.
Qed.

(** X13. processAudioChunk is never called with a window that holds no
    chunk. *)
Theorem no_empty_window_handed (w : world) :
  reachable env w -> Forall (fun window => window <> []) (handed (trace w)).
Proof.
  intros [evs ->].
  assert (H : Forall (fun window : list chunk => window <> []) (handed (trace initial)))
    by constructor.
  revert H. generalize initial. induction evs as [|ev evs IH]; intros w H; [exact H|].
  cbn [run]. apply IH, windows_react, H.
Qed.

(** ** After a stop *)

Lemma idle_ignores (ev : stimulus) (w : world) :
  (forall j, live w j = false) -> is_capture ev = true ->
  state_after (react env ev w) = w.
Proof.
  intros Hl Hc. destruct ev as [| |id c|id|id err]; try discriminate; cbn [react];
    unfold mbind, M_bind, bind, gets, state_after; now rewrite Hl.
Qed.

Lemma consistent_idle (w : world) :
  consistent w -> isRecording w = false -> forall j, live w j = false.
Proof.
  unfold consistent. intros Hc E. rewrite E in Hc. intros j.
  destruct (live w j) eqn:El; [|reflexivity]. now specialize (Hc j El).
Qed.

Lemma stop_idle (w : world) :
  isRecording (state_after (stopIntervalRecording w)) = false.
Proof.
  destruct (isRecording w) eqn:E.
  - apply (stop_recording w E).
  - now rewrite (stop_when_idle w E).
Qed.

(** X14. After a stop, the chunks and ticks that still arrive change
    nothing: what was in the buffer when stop was called is never handed
    to processAudioChunk, and neither is anything that comes later. *)
Theorem stop_discards_buffer (w : world) (evs : list stimulus) :
  reachable env w ->
  Forall (fun ev => is_capture ev = true) evs ->
  let w1 := state_after (stopIntervalRecording w) in
  run env evs w1 = w1 /\ handed (trace w1) = handed (trace w).
Proof.
  intros [evs0 ->] Hc. cbn zeta. split; [|apply stop_frame].
  set (w := run env evs0 initial).
  assert (Hl : forall j, live (state_after (stopIntervalRecording w)) j = false).
  { apply consistent_idle; [|apply stop_idle].
    apply consistent_stop. apply consistent_run, consistent_initial. }
  induction Hc as [|ev evs Hev _ IH]; [reflexivity|].
  cbn [run]. now rewrite (idle_ignores ev _ Hl Hev).
Qed.

Lemma no_live_no_active (w : world) :
  (forall j, live w j = false) -> active_sessions w = [].
Proof.
  intros Hl. unfold active_sessions.
  destruct (filter (fun p => closed p = false) (pipelines w)) as [|q qs] eqn:Ef;
    [reflexivity|]. exfalso.
  assert (Hq : q ∈ filter (fun p => closed p = false) (pipelines w))
    by (rewrite Ef; left).
  apply list_elem_of_filter in Hq as [Hq Hin].
  apply list_elem_of_lookup in Hin as [j Hj].
  specialize (Hl j). unfold live, is_live in Hl. rewrite Hj, Hq in Hl. discriminate.
Qed.

Lemma stop_trace (w : world) :
  exists evs, trace (state_after (stopIntervalRecording w)) = trace w ++ evs.
Proof.
  destruct (isRecording w) eqn:E.
  - rewrite (stop_when_recording w E). unfold state_after, stopped, logged, ended.
    cbn [snd]. fields.
    destruct (stopRecordingSubject w) as [s|]; fields;
      [unfold live; fields; destruct (is_live (pipelines w) s); fields|];
      destruct (recordingSubscription w) as [r|]; fields;
      rewrite <- ?app_assoc; eexists; reflexivity.
  - rewrite (stop_when_idle w E). exists []. cbn. now rewrite app_nil_r.
Qed.

(** X15. An error of the capture source ends the session as a stop does:
    the error is logged, the page no longer records, no subscription is
    live, and the results are kept. *)
Theorem source_error_ends_session (w : world) (id : nat) (err : exn) :
  reachable env w ->
  live w id = true ->
  let w' := state_after (react env (SourceError id err) w) in
  isRecording w' = false /\
  recordingSubscription w' = None /\
  stopRecordingSubject w' = None /\
  active_sessions w' = [] /\
  transcriptionResults w' = transcriptionResults w /\
  Console_error "Error in audio recording:" err ∈ trace w'.
Proof.
  intros [evs ->] Hl. set (w := run env evs initial) in *. cbn zeta.
  assert (Hc : consistent w) by apply consistent_run, consistent_initial.
  assert (Hrec : isRecording w = true).
  { destruct (isRecording w) eqn:E; [reflexivity|].
    now rewrite (consistent_idle w Hc E id) in Hl. }
  pose proof (consistent_react env (SourceError id err) w Hc) as Hc'.
  revert Hc'. cbn [react]. unfold mbind, M_bind, bind, gets, state_after. rewrite Hl.
  cbn [end_pipeline console_error emit modify fst snd].
  set (w2 := with_trace _ _). intros Hc'.
  assert (Hrec2 : isRecording w2 = true) by exact Hrec.
  destruct (stop_recording w2 Hrec2) as (H1 & H2 & H3 & H4 & _).
  unfold state_after in *.
  split; [exact H1|]. split; [exact H2|]. split; [exact H3|]. split; [|split].
  - apply no_live_no_active, consistent_idle; assumption.
  - rewrite H4. reflexivity.
  - destruct (stop_trace w2) as [more Hm]. unfold state_after in Hm. rewrite Hm.
    apply elem_of_app. left. unfold w2. fields. apply elem_of_app. right. left.
Qed.

(** X16. A stop followed by a start begins from a clean slate: the
    result list and the display are empty, and the new subscription,
    with an empty buffer, is the only live one. *)
Theorem restart_is_clean (w : world) :
  reachable env w ->
  let w' := run env [ClickStop; ClickStart] w in
  isRecording w' = true /\
  transcriptionResults w' = [] /\
  resultsContainer w' = Some [] /\
  active_sessions w' = [{| buffered := []; closed := false |}] /\
  recordingSubscription w' = Some (length (pipelines w)) /\
  buffer_of w' (length (pipelines w)) = [].
Proof.
  intros [evs ->]. set (w := run env evs initial) in *.
  assert (Hm : mirrors env w) by now apply mirrors_run.
  cbn zeta. cbn [run react].
  set (w1 := state_after (stopIntervalRecording w)).
  assert (Hl : forall j, live w1 j = false).
  { apply consistent_idle; [|apply stop_idle].
    apply consistent_stop. apply consistent_run, consistent_initial. }
  destruct (start_fresh w1 (stop_idle w)) as (H1 & H2 & _ & H4 & H5 & _).
  destruct (start_display w1 (stop_idle w)) as (_ & Hd).
  destruct (stop_frame w) as (_ & _ & Hc & _). fold w1 in Hc.
  assert (Hlen : length (pipelines w1) = length (pipelines w)).
  { unfold w1. destruct (isRecording w) eqn:E.
    - rewrite (stop_when_recording w E). unfold state_after, stopped, logged, ended.
      cbn [snd]. fields.
      destruct (stopRecordingSubject w) as [s|]; fields;
        [unfold live; fields; destruct (is_live (pipelines w) s); fields|];
        destruct (recordingSubscription w) as [r|]; fields;
        rewrite ?length_alter; reflexivity.
    - now rewrite (stop_when_idle w E). }
  split; [exact H1|]. split; [exact H5|]. split; [|split; [|split]].
  - rewrite Hd, Hc, Hm. reflexivity.
  - unfold active_sessions. rewrite H4, filter_app.
    pose proof (no_live_no_active w1 Hl) as Hn. unfold active_sessions in Hn.
    rewrite Hn. reflexivity.
  - now rewrite H2, Hlen.
  - unfold buffer_of. rewrite H4, <- Hlen, list_lookup_middle by reflexivity.
    reflexivity.
Qed.

(** ** Where the results come from *)

Lemma on_next_results (chunks : list chunk) (w : world) :
  let w' := snd (on_next env chunks w) in
  transcriptionResults w' = transcriptionResults w \/
  exists result,
    transcriptionResults w' = transcriptionResults w ++ [result] /\
    from_service env result /\ chunks <> [].
Proof.
  cbn zeta. unfold on_next. destruct chunks as [|c chunks]; [now left|].
  cbn [length Nat.eqb]. unfold mbind, M_bind, bind, console_log, emit, modify.
  set (w1 := with_trace _ w).
  destruct (processAudioChunk_outcome (c :: chunks) w1) as (evs & _ & H).
  destruct (processAudioChunk env (c :: chunks) w1) as [[[result|]|e] w2];
    cbn [fst snd] in *; [| |contradiction].
  - right. exists result. destruct H as (H1 & _ & _ & H4). now repeat split.
  - left. now destruct H as (H1 & _).
Qed.

(** What a stimulus does to the result list and to the windows handed
    over. *)
Lemma results_react (ev : stimulus) (w : world) :
  let w' := state_after (react env ev w) in
  exists windows,
    handed (trace w') = handed (trace w) ++ windows /\
    (transcriptionResults w' = [] \/
     transcriptionResults w' = transcriptionResults w \/
     exists result,
       transcriptionResults w' = transcriptionResults w ++ [result] /\
       from_service env result /\ windows <> []).
Proof.
  cbn zeta. destruct ev as [| |id c|id|id err]; cbn [react].
  - exists []. rewrite app_nil_r.
    destruct (isRecording w) eqn:E; [rewrite (start_when_recording w E); auto|].
    destruct (start_fresh w E) as (_ & _ & _ & _ & Hr & Ht). auto.
  - exists []. rewrite app_nil_r.
    destruct (stop_frame w) as (_ & H1 & _ & _ & Ht). auto.
  - exists []. rewrite app_nil_r. unfold mbind, M_bind, bind, gets, state_after.
    destruct (live w id); cbn [modify fst snd]; auto.
  - unfold mbind, M_bind, bind, gets, state_after.
    destruct (live w id); cbn [modify fst snd];
      [|exists []; rewrite app_nil_r; auto].
    destruct (on_next_session env (buffer_of w id) (with_buffer id [] w)) as (_ & Ht).
    eexists. split; [exact Ht|].
    destruct (on_next_results (buffer_of w id) (with_buffer id [] w))
      as [Hr|(result & Hr & Hf & Hne)]; [auto|].
    right. right. exists result. split; [exact Hr|]. split; [exact Hf|].
    destruct (decide (buffer_of w id = [])); [contradiction | discriminate].
  - exists []. rewrite app_nil_r. unfold mbind, M_bind, bind, gets, state_after.
    destruct (live w id); cbn [fst snd]; [|auto].
    cbn [end_pipeline console_error emit modify fst snd].
    match goal with |- handed (trace (snd (stopIntervalRecording ?u))) = _ /\ _ =>
      destruct (stop_frame u) as (_ & H1 & _ & _ & Ht);
      unfold state_after in H1, Ht; rewrite Ht, H1 end.
    fields. rewrite handed_app. cbn. rewrite app_nil_r. auto.
Qed.

(** X17. Every result in the list is an answer of the service to bytes
    that were written to the file of their window before they were sent;
    and there are never more results than windows were handed over. *)
Theorem results_come_from_service (w : world) :
  reachable env w ->
  Forall (from_service env) (transcriptionResults w) /\
  (length (transcriptionResults w) <= length (handed (trace w)))%nat.
Proof.
  intros [evs ->].
  assert (H : Forall (from_service env) (transcriptionResults initial) /\
              (length (transcriptionResults initial)
               <= length (handed (trace initial)))%nat)
    by (split; [constructor | reflexivity]).
  revert H. generalize initial.
  induction evs as [|ev evs IH]; intros w [Hf Hl]; [now split|].
  cbn [run]. apply IH.
  destruct (results_react ev w) as (windows & Ht & [Hr|[Hr|(result & Hr & Hs & Hne)]]);
    unfold state_after in *; rewrite Ht, Hr, ?length_app.
  - split; [constructor | cbn; lia].
  - split; [exact Hf | lia].
  - split; [apply Forall_app; split; [exact Hf | now repeat constructor]|].
    destruct windows; [congruence | cbn; lia].
Qed.

(** ** Short windows *)

Lemma foldl_app_concat (chunks : list chunk) :
  forall acc : chunk,
  foldl (fun acc chunk => acc ++ chunk) acc chunks = acc ++ concat chunks.
Proof.
  induction chunks as [|c chunks IH]; intros acc; cbn [foldl concat].
  - now rewrite app_nil_r.
  - now rewrite IH, app_assoc.
Qed.

(** X18. A window of one or two samples is too short for the rates of
    the script: the array resampled from it has no sample, nothing of
    the window is read, and it is the empty array that the encoder is
    given; when the encoder refuses it, the segment ends with null
    before anything is written. *)
Theorem short_window_encodes_nothing (chunks : list chunk) (w : world) :
  (length (concat chunks) <= 2)%nat ->
  let r := processAudioChunk env chunks w in
  arrays (store (snd r)) = arrays (store w) ++ [map fround (concat chunks); []] /\
  reads (store (snd r)) = reads (store w) /\
  forall e,
    renderWavFile env [] encoder_options = Throw e ->
    fst r = Return None /\
    exists evs,
      trace (snd r) = trace w ++ evs /\
      last evs = Some (Console_error "Error processing audio chunk:" e) /\
      (forall filename, Call_writeFile filename ∉ evs).
Proof.
  intros Hlen. cbn zeta. run_segment.
  rewrite foldl_app_concat. cbn [app].
  unfold DEVICE_SAMPLE_RATE, TARGET_SAMPLE_RATE.
  rewrite resample_short
    by (rewrite array_at_app_r, length_map; exact Hlen).
  cbn [arrays reads fst snd]. fields. rewrite array_at_app_r.
  fold TARGET_SAMPLE_RATE. fold encoder_options.
  destruct (renderWavFile env [] encoder_options) as [wavData|e2];
    [destruct (writeFile env _ wavData) as [[]|e3];
     [destruct (transcribeAudio env wavData) as [result|e4];
      [destruct (resultsContainer w) as [children|]|]|]|];
    cbn [fst snd]; close_trace; cbn [arrays reads];
    rewrite <- ?app_assoc; (split; [reflexivity|]); (split; [reflexivity|]);
    intros e He; try discriminate He.
  injection He as ->. split; [reflexivity|].
  eexists. split; [reflexivity|]. split; [reflexivity|].
  intros filename. not_among.
Qed.

(** ** The name of the file *)

Lemma replace_plain (s : string) :
  Forall plain (characters (replace_colons_and_periods s)).
Proof.
  induction s as [|c s IH]; cbn; [constructor|]. constructor; [|exact IH].
  unfold plain.
  destruct (Ascii.eqb_spec c ":"%char); destruct (Ascii.eqb_spec c "."%char); cbn;
    split; congruence.
Qed.

Lemma replace_at (s : string) :
  forall (i : nat) (c : ascii),
  characters s !! i = Some c ->
  (plain c -> characters (replace_colons_and_periods s) !! i = Some c) /\
  (~ plain c -> characters (replace_colons_and_periods s) !! i = Some "-"%char).
Proof.
  induction s as [|c0 s IH]; intros i c Hi; [discriminate|].
  destruct i as [|i]; [|exact (IH i c Hi)].
  cbn in Hi. injection Hi as ->. cbn. unfold plain.
  destruct (Ascii.eqb_spec c ":"%char); destruct (Ascii.eqb_spec c "."%char); cbn;
    split; intros H; try reflexivity; tauto.
Qed.

(** X19. The time stamp in the name of the file keeps its length and
    every character that is not a colon or a period; each colon and each
    period has become a hyphen, so that none is left; and a time stamp
    without any is used as it is. *)
Theorem timestamp_sanitised (s : string) :
  let t := replace_colons_and_periods s in
  String.length t = String.length s /\
  Forall plain (characters t) /\
  (forall i c, characters s !! i = Some c ->
     (plain c -> characters t !! i = Some c) /\
     (~ plain c -> characters t !! i = Some "-"%char)) /\
  (Forall plain (characters s) -> t = s).
Proof.
  cbn zeta. split; [|split; [apply replace_plain | split; [apply replace_at|]]].
  - induction s as [|c s IH]; cbn; [reflexivity | now rewrite IH].
  - induction s as [|c s IH]; cbn; intros H; [reflexivity|].
    apply Forall_cons in H as [[H1 H2] H]. rewrite (IH H).
    destruct (Ascii.eqb_spec c ":"%char); [contradiction|].
    destruct (Ascii.eqb_spec c "."%char); [contradiction|]. reflexivity.
Qed.

End Facts.

End RendererMore.

(* ================================================================== *)
(** * From the service to the page *)
(* ================================================================== *)

Module ServiceToPage.
Import Number Effects Json Stt SttFacts Notions SttMore.

Section Facts.

Variable env : Renderer.collaborators.
Variable Date_now_at : nat -> number.
Variable send : client -> InvokeEndpointCommand -> outcome (option bytes).
Variable decode : bytes -> outcome string.
Variable JSON_parse : string -> outcome json.

Let transcribeAudio := Stt.transcribeAudio Date_now_at send decode JSON_parse.

(** X20. A payload without a text, be it a record that has none or no
    record at all (null, a boolean, a number), is returned as a result,
    and the page shows it as "(No transcription)". *)
Theorem payload_without_text (audioData : bytes) (options : TranscriptionOptions)
    (p : process) (body : bytes) (s : string) (v : json) :
  send (createClient options) (request audioData options) = Return (Some body) ->
  decode body = Return s ->
  JSON_parse s = Return v ->
  lookup_field "text" (own_properties v) = None ->
  exists result,
    fst (transcribeAudio audioData options p) = Return result /\
    Renderer.text_property result = Return None /\
    Renderer.transcribedText env result = "(No transcription)".
Proof.
  intros Hs Hd Hp Ht. eexists. split.
  - apply (transcribeAudio_answer _ _ _ _ _ _ _ _ _ _ Hs Hd Hp).
  - assert (E : lookup_field "text"
                  (set_field "duration" (JNum (measured Date_now_at p)) (spread v []))
                = None).
    { rewrite lookup_set_field_other by discriminate.
      now apply lookup_assignments_none. }
    unfold Renderer.transcribedText. cbn [Renderer.text_property]. rewrite E. now split.
Qed.

(** X21. The text of the payload, when it is a string that is not
    empty, is the text that the page shows. *)
Theorem payload_text_is_shown (audioData : bytes) (options : TranscriptionOptions)
    (p : process) (body : bytes) (s text : string) (props : list (string * json)) :
  send (createClient options) (request audioData options) = Return (Some body) ->
  decode body = Return s ->
  JSON_parse s = Return (JObj props) ->
  NoDup props.*1 ->
  lookup_field "text" props = Some (JStr text) ->
  text <> EmptyString ->
  exists result,
    fst (transcribeAudio audioData options p) = Return result /\
    Renderer.transcribedText env result = text.
Proof.
  intros Hs Hd Hp Hn Ht Hne. eexists. split.
  - apply (transcribeAudio_answer _ _ _ _ _ _ _ _ _ _ Hs Hd Hp).
  - unfold Renderer.transcribedText. cbn [Renderer.text_property].
    rewrite lookup_set_field_other by discriminate.
    rewrite (spread_object props Hn), Ht. cbn [truthy].
    destruct (String.eqb_spec text EmptyString); [contradiction | reflexivity].
Qed.

End Facts.

End ServiceToPage.

(* ================================================================== *)
(** * Instances of the further facts *)
(* ================================================================== *)

Module MoreWitnesses.
Import Number Effects Resampler Json Stt Renderer Examples Notions.
Import ResamplerMore SttMore RendererMore ServiceToPage.

Lemma segment_success_witness :
  let w' := snd (processAudioChunk all_well six_samples initial) in
  transcriptionResults w' = [hello] /\
  resultsContainer w' = Some [shown_element all_well hello].
Proof.
  destruct (segment_success all_well six_samples initial hello) as (H1 & H2 & _).
  - vm_compute. reflexivity.
  - split; [exact H1 | exact H2].
Defined.

Lemma display_mirrors_results_witness :
  mirrors all_well
    (run all_well [ClickStart; SourceChunk 0 [half; quarter; half]; IntervalTick 0]
       initial).
Proof.
  apply (display_mirrors_results all_well).
  exists [ClickStart; SourceChunk 0 [half; quarter; half]; IntervalTick 0].
  reflexivity.
Defined.

Lemma no_empty_window_handed_witness :
  Forall (fun window : list (list number) => window <> [])
    (handed (trace (run all_well
                      [ClickStart; IntervalTick 0; SourceChunk 0 [half]; IntervalTick 0]
                      initial))).
Proof.
  apply (no_empty_window_handed all_well).
  exists [ClickStart; IntervalTick 0; SourceChunk 0 [half]; IntervalTick 0].
  reflexivity.
Defined.

Lemma stop_discards_buffer_witness :
  let w := run all_well [ClickStart; SourceChunk 0 [half]] initial in
  let w1 := state_after (stopIntervalRecording w) in
  run all_well [SourceChunk 0 [quarter]; IntervalTick 0] w1 = w1 /\
  handed (trace w1) = handed (trace w).
Proof.
  apply (stop_discards_buffer all_well).
  - exists [ClickStart; SourceChunk 0 [half]]. reflexivity.
  - repeat constructor.
Defined.

Lemma source_error_ends_session_witness :
  let w := run all_well [ClickStart; SourceChunk 0 [half]] initial in
  let w' := state_after (react all_well (SourceError 0 (Error "device lost")) w) in
  isRecording w' = false /\
  recordingSubscription w' = None /\
  stopRecordingSubject w' = None /\
  active_sessions w' = [] /\
  transcriptionResults w' = transcriptionResults w /\
  Console_error "Error in audio recording:" (Error "device lost") ∈ trace w'.
Proof.
  apply (source_error_ends_session all_well).
  - exists [ClickStart; SourceChunk 0 [half]]. reflexivity.
  - vm_compute. reflexivity.
Defined.

Lemma restart_is_clean_witness :
  let w := run all_well [ClickStart; SourceChunk 0 [half; quarter; half]; IntervalTick 0;
                         SourceChunk 0 [half]] initial in
  let w' := run all_well [ClickStop; ClickStart] w in
  isRecording w' = true /\
  transcriptionResults w' = [] /\
  resultsContainer w' = Some [] /\
  active_sessions w' = [{| buffered := []; closed := false |}] /\
  recordingSubscription w' = Some (length (pipelines w)) /\
  buffer_of w' (length (pipelines w)) = [].
Proof.
  apply (restart_is_clean all_well).
  exists [ClickStart; SourceChunk 0 [half; quarter; half]; IntervalTick 0;
          SourceChunk 0 [half]].
  reflexivity.
Defined.

Lemma results_come_from_service_witness :
  let w := run all_well [ClickStart; SourceChunk 0 [half; quarter; half]; IntervalTick 0]
             initial in
  Forall (from_service all_well) (transcriptionResults w) /\
  (length (transcriptionResults w) <= length (handed (trace w)))%nat.
Proof.
  apply (results_come_from_service all_well).
  exists [ClickStart; SourceChunk 0 [half; quarter; half]; IntervalTick 0].
  reflexivity.
Defined.

Lemma short_window_encodes_nothing_witness :
  let r := processAudioChunk all_well [[half]; [quarter]] initial in
  arrays (store (snd r)) = arrays (store initial) ++ [map fround [half; quarter]; []] /\
  fst r = Return None.
Proof.
  destruct (short_window_encodes_nothing all_well [[half]; [quarter]] initial)
    as (H1 & _ & H3).
  - simpl. lia.
  - split; [exact H1|]. apply (H3 (Error "no samples")). reflexivity.
Defined.

Lemma resample_leaves_input_witness :
  let h' := snd (resampleAudio 0%nat (ofZ 44100) (ofZ 8000) two_samples) in
  length (arrays h') = 2%nat /\ array_at h' 0%nat = [half; quarter].
Proof.
  destruct (resample_leaves_input 0%nat 1%nat (ofZ 44100) (ofZ 8000) two_samples
              (snd (resampleAudio 0%nat (ofZ 44100) (ofZ 8000) two_samples)))
    as (_ & H2 & _ & H4).
  - vm_compute. reflexivity.
  - vm_compute. reflexivity.
  - split; [exact H2|]. apply (H4 [half; quarter]). reflexivity.
Defined.

Lemma resample_empty_input_witness :
  resampleAudio 0%nat (ofZ 44100) (ofZ 8000) (Heap [[]] [])
    = (Return 1%nat, Heap [[]; []] []).
Proof.
  apply (resample_empty_input 0%nat (ofZ 44100) (ofZ 8000) (Heap [[]] [])).
  - vm_compute. reflexivity.
  - reflexivity.
Defined.

Lemma payload_properties_kept_witness :
  exists fields,
    fst (Stt.transcribeAudio clock answered decoded parsed [] no_options idle)
      = Return (JObj fields) /\
    lookup_field "text" fields = Some (JStr "hello") /\
    fields.*1 = ["text"; "duration"].
Proof.
  destruct (payload_properties_kept clock answered decoded parsed [] no_options idle
              [Byte.x7b; Byte.x7d] "[payload]"
              [("text", JStr "hello"); ("duration", JNum (ofZ 999))])
    as (fields & H1 & H2 & H3).
  - reflexivity.
  - reflexivity.
  - reflexivity.
  - compute_done.
  - exists fields. split; [exact H1|]. split.
    + rewrite H2 by discriminate. reflexivity.
    + rewrite H3. reflexivity.
Defined.

Lemma transcribeAudio_rethrows_witness :
  last (console (snd (Stt.transcribeAudio clock unreachable decoded parsed []
                        no_options idle)))
    = Some (LogError "Transcription failed after ${endTime - startTime} ms:"
              (Error "ECONNREFUSED")).
Proof.
  apply (transcribeAudio_rethrows clock unreachable decoded parsed [] no_options idle
           (Error "ECONNREFUSED")).
  vm_compute. reflexivity.
Defined.

Lemma payload_without_text_witness :
  exists result,
    fst (Stt.transcribeAudio clock answered decoded parsed_null [] no_options idle)
      = Return result /\
    transcribedText all_well result = "(No transcription)".
Proof.
  destruct (payload_without_text all_well clock answered decoded parsed_null []
              no_options idle [Byte.x7b; Byte.x7d] "[payload]" JNull)
    as (result & H1 & _ & H3); try reflexivity.
  exists result. split; [exact H1 | exact H3].
Defined.

Lemma payload_text_is_shown_witness :
  exists result,
    fst (Stt.transcribeAudio clock answered decoded parsed [] no_options idle)
      = Return result /\
    transcribedText all_well result = "hello".
Proof.
  apply (payload_text_is_shown all_well clock answered decoded parsed [] no_options idle
           [Byte.x7b; Byte.x7d] "[payload]" "hello"
           [("text", JStr "hello"); ("duration", JNum (ofZ 999))]);
    try reflexivity.
  - compute_done.
  - discriminate.
Defined.

End MoreWitnesses.
